(** * The bouncing-word simulator

    A shallow embedding of the animation loop shared by the three React
    components of the repository:

    - [BouncingWord] with a motion toggle (word pool of 18, speed 100);
    - [BouncingWord] with colour cycling (same pool, a colour pool of 8,
      speed 100, no motion gate);
    - [BouncingAnimation] of the landing page (word pool of 19, speed 80,
      motion gate).

    JavaScript numbers are modelled as exact rationals ([Q]): comparisons,
    [Math.abs], negation and [Math.floor] are exact on them, while the
    rounding of [+], [*] and [/], NaN and the infinities are outside this
    model.  Module [Binary64] repeats the kinematic part of the frame
    update over the kernel's binary64 numbers, rounding included, for the
    one property that rounding decides.  Equality of numbers is therefore [Qeq] ([==]).  [Math.random]
    is a stream of numbers indexed by the number of calls made so far.
    [Math.cos] and [Math.sin] are only applied to the start angle, and are
    taken as functions of the angle in degrees.

    React state and refs are fields of one record.  A closure created by
    the animation effect is modelled as reading the state of the render
    that is current when it runs: the effect is re-created after every
    measurement, and every label change is followed by one.  The landing
    page also re-creates it when the velocity changes, which cancels and
    re-requests the pending frame and is not modelled apart. *)

From Stdlib Require Import QArith Qabs Qround Lqa Lia ZArith Bool List String.
From Stdlib Require Import PrimFloat.
Import ListNotations.
Open Scope Q_scope.

(** ** Data model *)

(** [interface Position { x: number; y: number }] and
    [interface Velocity { x: number; y: number }] are the same structural
    type. *)
Record Vec2 : Type := mkVec2 { x : Q; y : Q }.

Definition Position := Vec2.
Definition Velocity := Vec2.

(** Component-wise equality of numbers. *)
Definition vec_eq (a b : Vec2) : Prop := x a == x b /\ y a == y b.

Infix "=v=" := vec_eq (at level 70, no associativity).

(** The [dimensions] state: container and word bounding boxes. *)
Record Dimensions : Type := mkDimensions {
  width : Q;
  height : Q;
  wordWidth : Q;
  wordHeight : Q
}.

(** What distinguishes the three components. *)
Record Variant : Type := mkVariant {
  SPEED : Q;                           (* pixels per second *)
  WORD_POOL : list string;
  COLOR_POOL : option (list string);   (* the colour variant only *)
  motionGate : bool;                   (* [if (!isMotionEnabled) return;] *)
  controls : bool                      (* the toggle and change-word buttons *)
}.

Definition WORD_POOL_18 : list string :=
  [ "self"; "values"; "wants"; "triggers"; "desires"; "fears";
    "motives"; "ego"; "shadows"; "memories"; "dreams"; "hopes";
    "limits"; "growth"; "truth"; "masks"; "core"; "essence" ]%string.

Definition WORD_POOL_19 : list string :=
  [ "self"; "values"; "wants"; "bonds"; "culture"; "desires"; "fears";
    "motives"; "ego"; "shadows"; "memories"; "dreams"; "hopes";
    "limits"; "growth"; "truth"; "masks"; "core"; "essence" ]%string.

Definition COLOR_POOL_8 : list string :=
  [ "hsl(0 0% 100%)"; "hsl(45 100% 75%)"; "hsl(120 45% 70%)";
    "hsl(300 60% 80%)"; "hsl(30 85% 75%)"; "hsl(180 55% 75%)";
    "hsl(60 80% 80%)"; "hsl(320 50% 85%)" ]%string.

(** The component with the motion toggle and the change-word button. *)
Definition BouncingWord_toggle : Variant :=
  mkVariant 100 WORD_POOL_18 None true true.

(** The component that also cycles colours; it has no motion gate. *)
Definition BouncingWord_color : Variant :=
  mkVariant 100 WORD_POOL_18 (Some COLOR_POOL_8) false false.

(** The animation of the landing page. *)
Definition BouncingAnimation : Variant :=
  mkVariant 80 WORD_POOL_19 None true false.

(** ** JavaScript primitives *)

(** [a < b] on numbers. *)
Definition Qlt_bool (a b : Q) : bool := negb (Qle_bool b a).

(** [arr[i]] for a number [i] that is an integer: [undefined] (here [None])
    outside the array. *)
Definition array_get {A : Type} (arr : list A) (i : Z) : option A :=
  if (i <? 0)%Z then None else nth_error arr (Z.to_nat i).

(** [Math.floor(r * arr.length)]. *)
Definition random_index {A : Type} (r : Q) (arr : list A) : Z :=
  Qfloor (r * inject_Z (Z.of_nat (List.length arr))).

(** [word !== current], where the state may hold [undefined]. *)
Definition strict_neq (word : string) (current : option string) : bool :=
  match current with
  | Some c => negb (String.eqb word c)
  | None => true
  end.

(** ** The position updater

    The body of [setPosition(prevPosition => ...)].  Its mutable locals are
    the fields of [Locals]; the two boundary checks update them in order. *)

Record Locals : Type := mkLocals {
  newPosition : Position;
  newVelocity : Velocity;
  collisionDetected : bool
}.

Section Updater.

Variable V : Variant.
Variable dimensions : Dimensions.
Variable velocity : Velocity.

(** [dimensions.width - dimensions.wordWidth] and its vertical twin. *)
Definition maxX : Q := width dimensions - wordWidth dimensions.
Definition maxY : Q := height dimensions - wordHeight dimensions.

(** The candidate position. *)
Definition candidate (deltaTime : Q) (prevPosition : Position) : Position :=
  {| x := x prevPosition + x velocity * SPEED V * deltaTime;
     y := y prevPosition + y velocity * SPEED V * deltaTime |}.

(** Check horizontal boundaries. *)
Definition check_horizontal (l : Locals) : Locals :=
  if Qle_bool (x (newPosition l)) 0 then
    {| newPosition := {| x := 0; y := y (newPosition l) |};
       newVelocity := {| x := Qabs (x (newVelocity l));
                         y := y (newVelocity l) |};
       collisionDetected := true |}
  else if Qle_bool maxX (x (newPosition l)) then
    {| newPosition := {| x := maxX; y := y (newPosition l) |};
       newVelocity := {| x := - Qabs (x (newVelocity l));
                         y := y (newVelocity l) |};
       collisionDetected := true |}
  else l.

(** Check vertical boundaries. *)
Definition check_vertical (l : Locals) : Locals :=
  if Qle_bool (y (newPosition l)) 0 then
    {| newPosition := {| x := x (newPosition l); y := 0 |};
       newVelocity := {| x := x (newVelocity l);
                         y := Qabs (y (newVelocity l)) |};
       collisionDetected := true |}
  else if Qle_bool maxY (y (newPosition l)) then
    {| newPosition := {| x := x (newPosition l); y := maxY |};
       newVelocity := {| x := x (newVelocity l);
                         y := - Qabs (y (newVelocity l)) |};
       collisionDetected := true |}
  else l.

(** The locals when the updater reaches [if (collisionDetected)]. *)
Definition updater (deltaTime : Q) (prevPosition : Position) : Locals :=
  check_vertical
    (check_horizontal
       {| newPosition := candidate deltaTime prevPosition;
          newVelocity := velocity;
          collisionDetected := false |}).

(** Which branch of each check a frame takes. *)
Definition clamped_left (deltaTime : Q) (p : Position) : bool :=
  Qle_bool (x (candidate deltaTime p)) 0.

Definition clamped_right (deltaTime : Q) (p : Position) : bool :=
  negb (Qle_bool (x (candidate deltaTime p)) 0)
  && Qle_bool maxX (x (candidate deltaTime p)).

Definition clamped_top (deltaTime : Q) (p : Position) : bool :=
  Qle_bool (y (candidate deltaTime p)) 0.

Definition clamped_bottom (deltaTime : Q) (p : Position) : bool :=
  negb (Qle_bool (y (candidate deltaTime p)) 0)
  && Qle_bool maxY (y (candidate deltaTime p)).

End Updater.

(** ** Component state

    The [useState] cells and the two [useRef] cells that the loop uses,
    followed by the part of the host the loop talks to: the callbacks
    requested with [requestAnimationFrame] and not yet run or cancelled,
    the next handle the host will return, and the number of calls made to
    [Math.random]. *)
Record State : Type := mkState {
  currentWord : option string;          (* [None] is [undefined] *)
  currentColor : option string;
  position : Position;
  velocity : Velocity;
  isMotionEnabled : bool;
  dimensions : Dimensions;
  lastTimeRef : Q;
  animationRef : option positive;       (* [useRef<number>()] *)
  effectCleanup : bool;   (* the last run of the animation effect returned
                             its cleanup function *)
  frameRequests : list positive;
  nextHandle : positive;
  randomCalls : nat
}.

Definition setCurrentWord (w : option string) (st : State) : State :=
  mkState w (currentColor st) (position st) (velocity st)
    (isMotionEnabled st) (dimensions st) (lastTimeRef st) (animationRef st)
    (effectCleanup st) (frameRequests st) (nextHandle st) (randomCalls st).

Definition setCurrentColor (c : option string) (st : State) : State :=
  mkState (currentWord st) c (position st) (velocity st)
    (isMotionEnabled st) (dimensions st) (lastTimeRef st) (animationRef st)
    (effectCleanup st) (frameRequests st) (nextHandle st) (randomCalls st).

Definition setPosition (p : Position) (st : State) : State :=
  mkState (currentWord st) (currentColor st) p (velocity st)
    (isMotionEnabled st) (dimensions st) (lastTimeRef st) (animationRef st)
    (effectCleanup st) (frameRequests st) (nextHandle st) (randomCalls st).

Definition setVelocity (v : Velocity) (st : State) : State :=
  mkState (currentWord st) (currentColor st) (position st) v
    (isMotionEnabled st) (dimensions st) (lastTimeRef st) (animationRef st)
    (effectCleanup st) (frameRequests st) (nextHandle st) (randomCalls st).

Definition setIsMotionEnabled (b : bool) (st : State) : State :=
  mkState (currentWord st) (currentColor st) (position st) (velocity st)
    b (dimensions st) (lastTimeRef st) (animationRef st)
    (effectCleanup st) (frameRequests st) (nextHandle st) (randomCalls st).

Definition setDimensions (d : Dimensions) (st : State) : State :=
  mkState (currentWord st) (currentColor st) (position st) (velocity st)
    (isMotionEnabled st) d (lastTimeRef st) (animationRef st)
    (effectCleanup st) (frameRequests st) (nextHandle st) (randomCalls st).

Definition set_lastTimeRef (t : Q) (st : State) : State :=
  mkState (currentWord st) (currentColor st) (position st) (velocity st)
    (isMotionEnabled st) (dimensions st) t (animationRef st)
    (effectCleanup st) (frameRequests st) (nextHandle st) (randomCalls st).

Definition set_effectCleanup (b : bool) (st : State) : State :=
  mkState (currentWord st) (currentColor st) (position st) (velocity st)
    (isMotionEnabled st) (dimensions st) (lastTimeRef st) (animationRef st)
    b (frameRequests st) (nextHandle st) (randomCalls st).

Definition set_frameRequests (q : list positive) (st : State) : State :=
  mkState (currentWord st) (currentColor st) (position st) (velocity st)
    (isMotionEnabled st) (dimensions st) (lastTimeRef st) (animationRef st)
    (effectCleanup st) q (nextHandle st) (randomCalls st).

(** [animationRef.current = requestAnimationFrame(animate)]: the host
    queues the callback and returns a fresh, non-zero handle. *)
Definition requestAnimationFrame (st : State) : State :=
  mkState (currentWord st) (currentColor st) (position st) (velocity st)
    (isMotionEnabled st) (dimensions st) (lastTimeRef st)
    (Some (nextHandle st)) (effectCleanup st)
    (frameRequests st ++ [nextHandle st]) (Pos.succ (nextHandle st))
    (randomCalls st).

(** [cancelAnimationFrame(h)]. *)
Definition cancelAnimationFrame (h : positive) (st : State) : State :=
  set_frameRequests
    (filter (fun h' => negb (Pos.eqb h' h)) (frameRequests st)) st.

(** One more call of [Math.random] has been made. *)
Definition tick_random (st : State) : State :=
  mkState (currentWord st) (currentColor st) (position st) (velocity st)
    (isMotionEnabled st) (dimensions st) (lastTimeRef st) (animationRef st)
    (effectCleanup st) (frameRequests st) (nextHandle st)
    (S (randomCalls st)).

(** ** Label and colour selection *)

(** [pool.filter(item => item !== current)]. *)
Definition available (pool : list string) (current : option string)
  : list string :=
  filter (fun item => strict_neq item current) pool.

(** [available[Math.floor(r * available.length)]] for the random number
    [r]. *)
Definition pick (pool : list string) (current : option string) (r : Q)
  : option string :=
  array_get (available pool current)
            (random_index r (available pool current)).

(** ** The simulator *)

(** What happens to a mounted component. *)
Inductive Event : Type :=
| Frame (currentTime : Q)     (* the host runs the requested callbacks *)
| Measure (d : Dimensions)    (* [updateDimensions]: resize, word change,
                                 or the 100 ms timeout *)
| SetMotion (b : bool)        (* the media query or the toggle button *)
| ClickChangeWord.            (* the change-word button *)

Section Simulator.

Variable V : Variant.

(** The [n]-th number returned by [Math.random]. *)
Variable random : nat -> Q.

(** [Math.cos] and [Math.sin] of an angle given in degrees. *)
Variable cosd sind : Q -> Q.

(** [changeWord] (and the first half of [changeWordAndColor]). *)
Definition changeWord (st : State) : State :=
  let newWord :=
    pick (WORD_POOL V) (currentWord st) (random (randomCalls st)) in
  setCurrentWord newWord (tick_random st).

(** [changeWordAndColor] over the colour pool [colors]. *)
Definition changeWordAndColor (colors : list string) (st : State) : State :=
  let st1 := changeWord st in
  let newColor :=
    pick colors (currentColor st1) (random (randomCalls st1)) in
  setCurrentColor newColor (tick_random st1).

(** The change a collision triggers in this variant. *)
Definition onCollision (st : State) : State :=
  match COLOR_POOL V with
  | Some colors => changeWordAndColor colors st
  | None => changeWord st
  end.

(** The interval, in seconds, that [animate] computes at [currentTime]:
    [lastTimeRef.current] is first set to [currentTime] when it is 0. *)
Definition deltaTime_at (currentTime : Q) (st : State) : Q :=
  let last :=
    if Qeq_bool (lastTimeRef st) 0 then currentTime else lastTimeRef st in
  (currentTime - last) / 1000.

(** The locals of the position updater of the frame at [currentTime]. *)
Definition frame_locals (currentTime : Q) (st : State) : Locals :=
  updater V (dimensions st) (velocity st)
          (deltaTime_at currentTime st) (position st).

(** [animate(currentTime)]. *)
Definition animate (currentTime : Q) (st : State) : State :=
  let l := frame_locals currentTime st in
  let st1 := set_lastTimeRef currentTime st in
  let st2 :=
    if collisionDetected l
    then onCollision (setVelocity (newVelocity l) st1)
    else st1 in
  requestAnimationFrame (setPosition (newPosition l) st2).

(** The body of the animation effect. *)
Definition animationEffect (st : State) : State :=
  if motionGate V && negb (isMotionEnabled st) then
    set_effectCleanup false st
  else
    set_effectCleanup true
      (if Qlt_bool 0 (width (dimensions st))
          && Qlt_bool 0 (height (dimensions st))
       then requestAnimationFrame st
       else st).

(** The cleanup function the effect returns. *)
Definition animationCleanup (st : State) : State :=
  match animationRef st with
  | Some h => cancelAnimationFrame h st
  | None => st
  end.

(** A dependency of the effect changed: the cleanup of the previous run,
    if it returned one, then the body again. *)
Definition rerunAnimationEffect (st : State) : State :=
  animationEffect
    (if effectCleanup st then animationCleanup st else st).

(** The host runs every callback that was requested before this frame;
    all of them are [animate]. *)
Definition runFrame (currentTime : Q) (st : State) : State :=
  fold_left (fun s _ => animate currentTime s)
            (frameRequests st) (set_frameRequests [] st).

Definition step (e : Event) (st : State) : State :=
  match e with
  | Frame currentTime => runFrame currentTime st
  | Measure d => rerunAnimationEffect (setDimensions d st)
  | SetMotion b =>
      if motionGate V
      then rerunAnimationEffect (setIsMotionEnabled b st)
      else st
  | ClickChangeWord => if controls V then changeWord st else st
  end.

(** The first render: the [useState] and [useRef] initialisers. *)
Definition initialState : State :=
  {| currentWord := Some "self"%string;
     currentColor :=
       match COLOR_POOL V with
       | Some colors => nth_error colors 0
       | None => None
       end;
     position := {| x := 50; y := 50 |};
     velocity := {| x := 1; y := 1 |};
     isMotionEnabled := true;
     dimensions := mkDimensions 0 0 0 0;
     lastTimeRef := 0;
     animationRef := None;
     effectCleanup := false;
     frameRequests := [];
     nextHandle := 1%positive;
     randomCalls := 0 |}.

(** The effect that draws the start position and direction, in a layout
    measured as [d] (both refs are attached by the time effects run). *)
Definition initEffect (d : Dimensions) (st : State) : State :=
  let maxX := width d - wordWidth d in
  let maxY := height d - wordHeight d in
  let n := randomCalls st in
  let st1 :=
    setPosition {| x := random n * maxX; y := random (n + 1) * maxY |}
                (tick_random (tick_random st)) in
  let angle := random (n + 2) * 30 + 30 in
  let dirX := if Qlt_bool (1 # 2) (random (n + 3)) then 1 else - (1) in
  let dirY := if Qlt_bool (1 # 2) (random (n + 4)) then 1 else - (1) in
  setVelocity {| x := cosd angle * dirX; y := sind angle * dirY |}
              (tick_random (tick_random (tick_random st1))).

(** The component once its mount effects have run and their state
    updates are rendered, in a layout measured as [d] and with the
    reduced-motion preference [reduceMotion]: start position and
    direction, first measurement, media query, animation effect. *)
Definition mount (d : Dimensions) (reduceMotion : bool) : State :=
  let st1 := initEffect d initialState in
  let st2 := setDimensions d st1 in
  let st3 :=
    if motionGate V then setIsMotionEnabled (negb reduceMotion) st2
    else st2 in
  animationEffect st3.

(** The states the component can be in. *)
Inductive Reachable : State -> Prop :=
| Reachable_mount (d : Dimensions) (reduceMotion : bool) :
    Reachable (mount d reduceMotion)
| Reachable_step (e : Event) (st : State) :
    Reachable st -> Reachable (step e st).

(** Frames at the given times, one after the other. *)
Definition runFrames (times : list Q) (st : State) : State :=
  fold_left (fun s t => runFrame t s) times st.

(** [animate] at the given times, one after the other. *)
Definition animates (times : list Q) (st : State) : State :=
  fold_left (fun s t => animate t s) times st.

(** No boundary check fires in any of the frames at the given times. *)
Fixpoint no_collision (times : list Q) (st : State) : bool :=
  match times with
  | [] => true
  | t :: times' =>
      negb (collisionDetected (frame_locals t st))
      && no_collision times' (animate t st)
  end.

End Simulator.

(** One of the four measured dimensions is zero. *)
Definition some_dimension_zero (d : Dimensions) : bool :=
  Qeq_bool (width d) 0 || Qeq_bool (height d) 0
  || Qeq_bool (wordWidth d) 0 || Qeq_bool (wordHeight d) 0.

(** The container width or the container height is zero. *)
Definition container_dimension_zero (d : Dimensions) : bool :=
  Qeq_bool (width d) 0 || Qeq_bool (height d) 0.

(** The position lies in the rectangle the word can occupy. *)
Definition in_bounds (d : Dimensions) (p : Position) : Prop :=
  0 <= x p /\ x p <= maxX d /\ 0 <= y p /\ y p <= maxY d.

(** The position lies strictly inside that rectangle. *)
Definition strictly_inside (d : Dimensions) (p : Position) : Prop :=
  0 < x p /\ x p < maxX d /\ 0 < y p /\ y p < maxY d.

(** ** Assumptions on the host and invariants of the loop *)

(** [Math.random] returns numbers in the interval from 0 (included) to 1
    (excluded). *)
Definition random_ok (random : nat -> Q) : Prop :=
  forall n, 0 <= random n /\ random n < 1.

(** Cosine and sine are positive between 30 and 60 degrees. *)
Definition start_angle_ok (cosd sind : Q -> Q) : Prop :=
  forall a, 30 <= a -> a < 60 -> 0 < cosd a /\ 0 < sind a.

(** Neither velocity component is zero. *)
Definition moving (st : State) : Prop :=
  ~ x (velocity st) == 0 /\ ~ y (velocity st) == 0.

(** At most one callback is requested, and [animationRef] holds its
    handle while the effect's cleanup is in place. *)
Definition requests_tracked (st : State) : Prop :=
  frameRequests st = []
  \/ (effectCleanup st = true
      /\ exists h, frameRequests st = [h] /\ animationRef st = Some h).

(** Nothing is requested while the motion gate is closed or the container
    has no positive width and height. *)
Definition loop_gated (V : Variant) (st : State) : Prop :=
  (motionGate V = true -> isMotionEnabled st = false ->
   frameRequests st = [])
  /\ (~ (0 < width (dimensions st) /\ 0 < height (dimensions st)) ->
      frameRequests st = []).

Definition loop_ok (V : Variant) (st : State) : Prop :=
  requests_tracked st /\ loop_gated V st.

(** ** Concrete states used below *)

(** The scenario of the specification: container 500 x 300, label
    100 x 50, position (480, 10), velocity (1, 1), the previous frame at
    1000 ms. *)
Definition scenario_state : State :=
  {| currentWord := Some "self"%string;
     currentColor := None;
     position := {| x := 480; y := 10 |};
     velocity := {| x := 1; y := 1 |};
     isMotionEnabled := true;
     dimensions := mkDimensions 500 300 100 50;
     lastTimeRef := 1000;
     animationRef := Some 1%positive;
     effectCleanup := true;
     frameRequests := [];
     nextHandle := 2%positive;
     randomCalls := 5 |}.

(** A container narrower than the label: 80 x 300 against 100 x 50, the
    word at (50, 50) moving with velocity (1, 1), the previous frame at
    1000 ms. *)
Definition narrow_state : State :=
  {| currentWord := Some "self"%string;
     currentColor := None;
     position := {| x := 50; y := 50 |};
     velocity := {| x := 1; y := 1 |};
     isMotionEnabled := true;
     dimensions := mkDimensions 80 300 100 50;
     lastTimeRef := 1000;
     animationRef := Some 1%positive;
     effectCleanup := true;
     frameRequests := [];
     nextHandle := 2%positive;
     randomCalls := 5 |}.

(** The word in the open, away from every wall: position (200, 100),
    velocity (1, 1), container 500 x 300, label 100 x 50, the previous
    frame at 1000 ms. *)
Definition open_field_state : State :=
  {| currentWord := Some "self"%string;
     currentColor := None;
     position := {| x := 200; y := 100 |};
     velocity := {| x := 1; y := 1 |};
     isMotionEnabled := true;
     dimensions := mkDimensions 500 300 100 50;
     lastTimeRef := 1000;
     animationRef := Some 1%positive;
     effectCleanup := true;
     frameRequests := [];
     nextHandle := 2%positive;
     randomCalls := 5 |}.

(** Stand-ins for [Math.random], [Math.cos] and [Math.sin] in concrete
    runs: a generator stuck at one value, and the cosine and sine of 30
    degrees to three places. *)
Definition constant_random (r : Q) : nat -> Q := fun _ => r.
Definition cos30 : Q -> Q := fun _ => 866 # 1000.
Definition sin30 : Q -> Q := fun _ => 1 # 2.

(** The toggle component mounted in a 500 x 300 container with a 100 x 50
    label, when every call of [Math.random] returns 0: the word starts in
    the corner (0, 0), heading up and left. *)
Definition corner_start : State :=
  mount BouncingWord_toggle (constant_random 0) cos30 sin30
        (mkDimensions 500 300 100 50) false.

(** The same component mounted when the container is measured but the
    label is not yet laid out (its box is 0 x 0). *)
Definition unmeasured_label_start : State :=
  mount BouncingWord_toggle (constant_random (1 # 2)) cos30 sin30
        (mkDimensions 500 300 0 0) false.

(** The same component mounted, then switched off. *)
Definition switched_off : State :=
  step BouncingWord_toggle (constant_random (1 # 2)) (SetMotion false)
       (mount BouncingWord_toggle (constant_random (1 # 2)) cos30 sin30
              (mkDimensions 500 300 100 50) false).

(** ** Runs, unmounting and further invariants *)

(** A sequence of events, one after the other. *)
Definition run (V : Variant) (random : nat -> Q) (events : list Event)
           (st : State) : State :=
  fold_left (fun s e => step V random e s) events st.

(** Unmounting the component runs the cleanup the animation effect
    returned last, if it returned one. *)
Definition unmount (st : State) : State :=
  if effectCleanup st then animationCleanup st else st.

(** The conditions under which the animation effect requests a frame:
    the gate, where there is one, is open, and the container has a
    positive width and height. *)
Definition loop_enabled (V : Variant) (st : State) : bool :=
  (negb (motionGate V) || isMotionEnabled st)
  && Qlt_bool 0 (width (dimensions st))
  && Qlt_bool 0 (height (dimensions st)).

(** While the loop is enabled one callback is requested, and
    [animationRef] holds its handle. *)
Definition loop_live (V : Variant) (st : State) : Prop :=
  loop_enabled V st = true ->
  exists h, frameRequests st = [h] /\ animationRef st = Some h.

(** The event switches motion on. *)
Definition enables_motion (e : Event) : bool :=
  match e with
  | SetMotion true => true
  | _ => false
  end.

(** The angle, in degrees, that the start direction is drawn with: the
    third call of [Math.random] at mount. *)
Definition start_angle (random : nat -> Q) : Q := random 2%nat * 30 + 30.

(** The pools hold the first label and two distinct items each. *)
Definition pool_ok (pool : list string) : Prop :=
  exists a b, In a pool /\ In b pool /\ a <> b.

Definition pools_ok (V : Variant) : Prop :=
  In "self"%string (WORD_POOL V)
  /\ pool_ok (WORD_POOL V)
  /\ (forall colors, COLOR_POOL V = Some colors ->
      colors <> [] /\ pool_ok colors).

(** The label is a word of the pool and, in the colour variant, the
    colour is a colour of the pool. *)
Definition label_ok (V : Variant) (st : State) : Prop :=
  (exists w, currentWord st = Some w /\ In w (WORD_POOL V))
  /\ (forall colors, COLOR_POOL V = Some colors ->
      exists c, currentColor st = Some c /\ In c colors).

(** Cosine and sine are positive from 30 to 60 degrees, both included. *)
Definition start_angle_closed_ok (cosd sind : Q -> Q) : Prop :=
  forall a, 30 <= a -> a <= 60 -> 0 < cosd a /\ 0 < sind a.

(** The event is a frame tick. *)
Definition is_frame (e : Event) : bool :=
  match e with
  | Frame _ => true
  | _ => false
  end.

(** ** The frame update in binary64

    The kinematic part of [animate] over binary64 numbers, every operation
    rounding as in the source: the time baseline, the candidate, the two
    boundary checks, and the position and velocity that are stored.  The
    label is left out; its selection does no arithmetic on positions. *)
Module Binary64.

Local Open Scope float_scope.

Record Vec2 : Type := mkVec2 { x : float; y : float }.

Record Dimensions : Type := mkDimensions {
  width : float;
  height : float;
  wordWidth : float;
  wordHeight : float
}.

Record Locals : Type := mkLocals {
  newPosition : Vec2;
  newVelocity : Vec2;
  collisionDetected : bool
}.

(** The state the position updater reads and writes. *)
Record Kinematics : Type := mkKinematics {
  position : Vec2;
  velocity : Vec2;
  lastTimeRef : float
}.

Definition maxX (d : Dimensions) : float := width d - wordWidth d.
Definition maxY (d : Dimensions) : float := height d - wordHeight d.

Definition candidate (SPEED : float) (v : Vec2) (deltaTime : float)
           (prevPosition : Vec2) : Vec2 :=
  {| x := x prevPosition + x v * SPEED * deltaTime;
     y := y prevPosition + y v * SPEED * deltaTime |}.

Definition check_horizontal (d : Dimensions) (l : Locals) : Locals :=
  if PrimFloat.leb (x (newPosition l)) 0 then
    {| newPosition := {| x := 0; y := y (newPosition l) |};
       newVelocity := {| x := PrimFloat.abs (x (newVelocity l));
                         y := y (newVelocity l) |};
       collisionDetected := true |}
  else if PrimFloat.leb (maxX d) (x (newPosition l)) then
    {| newPosition := {| x := maxX d; y := y (newPosition l) |};
       newVelocity := {| x := - PrimFloat.abs (x (newVelocity l));
                         y := y (newVelocity l) |};
       collisionDetected := true |}
  else l.

Definition check_vertical (d : Dimensions) (l : Locals) : Locals :=
  if PrimFloat.leb (y (newPosition l)) 0 then
    {| newPosition := {| x := x (newPosition l); y := 0 |};
       newVelocity := {| x := x (newVelocity l);
                         y := PrimFloat.abs (y (newVelocity l)) |};
       collisionDetected := true |}
  else if PrimFloat.leb (maxY d) (y (newPosition l)) then
    {| newPosition := {| x := x (newPosition l); y := maxY d |};
       newVelocity := {| x := x (newVelocity l);
                         y := - PrimFloat.abs (y (newVelocity l)) |};
       collisionDetected := true |}
  else l.

Definition updater (SPEED : float) (d : Dimensions) (v : Vec2)
           (deltaTime : float) (prevPosition : Vec2) : Locals :=
  check_vertical d
    (check_horizontal d
       {| newPosition := candidate SPEED v deltaTime prevPosition;
          newVelocity := v;
          collisionDetected := false |}).

Definition deltaTime_at (currentTime : float) (k : Kinematics) : float :=
  let last :=
    if PrimFloat.eqb (lastTimeRef k) 0 then currentTime
    else lastTimeRef k in
  (currentTime - last) / 1000.

Definition frame_locals (SPEED : float) (d : Dimensions)
           (currentTime : float) (k : Kinematics) : Locals :=
  updater SPEED d (velocity k) (deltaTime_at currentTime k) (position k).

(** What [animate(currentTime)] leaves in the position, the velocity and
    the time baseline. *)
Definition animate (SPEED : float) (d : Dimensions) (currentTime : float)
           (k : Kinematics) : Kinematics :=
  let l := frame_locals SPEED d currentTime k in
  {| position := newPosition l;
     velocity := if collisionDetected l then newVelocity l else velocity k;
     lastTimeRef := currentTime |}.

Definition animates (SPEED : float) (d : Dimensions) (times : list float)
           (k : Kinematics) : Kinematics :=
  fold_left (fun s t => animate SPEED d t s) times k.

Fixpoint no_collision (SPEED : float) (d : Dimensions) (times : list float)
         (k : Kinematics) : bool :=
  match times with
  | [] => true
  | t :: times' =>
      negb (collisionDetected (frame_locals SPEED d t k))
      && no_collision SPEED d times' (animate SPEED d t k)
  end.




End Binary64.

(** * Properties *)

(** ** Numbers and arrays *)

Lemma Qlt_bool_iff (a b : Q) : Qlt_bool a b = true <-> a < b.
Proof.
  unfold Qlt_bool. rewrite negb_true_iff.
  split; intro H.
  - apply Qnot_le_lt. intro Hle. apply Qle_bool_iff in Hle. congruence.
  - destruct (Qle_bool b a) eqn:E; [|reflexivity].
    apply Qle_bool_iff in E. lra.
Qed.

Lemma Qle_bool_false (a b : Q) : Qle_bool a b = false <-> b < a.
Proof.
  split; intro H.
  - apply Qnot_le_lt. intro Hle. apply Qle_bool_iff in Hle. congruence.
  - destruct (Qle_bool a b) eqn:E; [|reflexivity].
    apply Qle_bool_iff in E. lra.
Qed.

Lemma Qabs_zero_iff (a : Q) : Qabs a == 0 <-> a == 0.
Proof.
  split; intro H.
  - revert H. apply Qabs_case; intros; lra.
  - rewrite H. reflexivity.
Qed.

Lemma Qabs_pos_of_nonzero (a : Q) : ~ a == 0 -> 0 < Qabs a.
Proof.
  intro Hnz. destruct (Qlt_le_dec 0 (Qabs a)) as [Hlt | Hle]; [exact Hlt|].
  exfalso. apply Hnz. apply Qabs_zero_iff.
  pose proof (Qabs_nonneg a). lra.
Qed.

Lemma Qabs_Qabs (a : Q) : Qabs (Qabs a) == Qabs a.
Proof. apply Qabs_pos, Qabs_nonneg. Qed.

Lemma Qabs_opp_Qabs (a : Q) : Qabs (- Qabs a) == Qabs a.
Proof. rewrite Qabs_opp. apply Qabs_Qabs. Qed.

(** Case analysis on a boundary test. *)
Ltac case_Qle a b :=
  let E := fresh "E" in
  destruct (Qle_bool a b) eqn:E;
  [apply Qle_bool_iff in E | apply Qle_bool_false in E].

(** ** The position updater *)

Section UpdaterFacts.

Variable V : Variant.
Variable d : Dimensions.
Variable v : Velocity.
Variable dt : Q.
Variable p : Position.

Lemma updater_in_bounds :
  wordWidth d <= width d -> wordHeight d <= height d ->
  in_bounds d (newPosition (updater V d v dt p)).
Proof.
  intros Hw Hh. unfold in_bounds, updater, check_vertical, check_horizontal.
  unfold maxX, maxY. simpl.
  case_Qle (x p + x v * SPEED V * dt) 0; simpl;
    [| case_Qle (width d - wordWidth d) (x p + x v * SPEED V * dt); simpl ];
    (case_Qle (y p + y v * SPEED V * dt) 0; simpl;
     [| case_Qle (height d - wordHeight d) (y p + y v * SPEED V * dt);
        simpl ]);
    repeat split; lra.
Qed.

Lemma updater_abs_x :
  Qabs (x (newVelocity (updater V d v dt p))) == Qabs (x v).
Proof.
  unfold updater, check_vertical, check_horizontal.
  cbn [x y newPosition newVelocity collisionDetected].
  destruct (Qle_bool (x (candidate V v dt p)) 0);
    [| destruct (Qle_bool (maxX d) (x (candidate V v dt p))) ];
    cbn [x y newPosition newVelocity collisionDetected];
    (destruct (Qle_bool (y (candidate V v dt p)) 0);
     [| destruct (Qle_bool (maxY d) (y (candidate V v dt p))) ]);
    cbn [x y newPosition newVelocity collisionDetected];
    auto using Qabs_Qabs, Qabs_opp_Qabs with qarith.
Qed.

Lemma updater_abs_y :
  Qabs (y (newVelocity (updater V d v dt p))) == Qabs (y v).
Proof.
  unfold updater, check_vertical, check_horizontal.
  cbn [x y newPosition newVelocity collisionDetected].
  destruct (Qle_bool (x (candidate V v dt p)) 0);
    [| destruct (Qle_bool (maxX d) (x (candidate V v dt p))) ];
    cbn [x y newPosition newVelocity collisionDetected];
    (destruct (Qle_bool (y (candidate V v dt p)) 0);
     [| destruct (Qle_bool (maxY d) (y (candidate V v dt p))) ]);
    cbn [x y newPosition newVelocity collisionDetected];
    auto using Qabs_Qabs, Qabs_opp_Qabs with qarith.
Qed.

(** The velocity component each branch leaves behind. *)
Lemma updater_left :
  clamped_left V v dt p = true ->
  x (newVelocity (updater V d v dt p)) = Qabs (x v)
  /\ x (newPosition (updater V d v dt p)) = 0.
Proof.
  unfold clamped_left, updater, check_vertical, check_horizontal. simpl.
  intros ->. simpl.
  destruct (Qle_bool (y p + y v * SPEED V * dt) 0); simpl;
    [| destruct (Qle_bool (maxY d) (y p + y v * SPEED V * dt)); simpl ];
    split; reflexivity.
Qed.

Lemma updater_right :
  clamped_right V d v dt p = true ->
  x (newVelocity (updater V d v dt p)) = - Qabs (x v)
  /\ x (newPosition (updater V d v dt p)) = maxX d.
Proof.
  unfold clamped_right, updater, check_vertical, check_horizontal. simpl.
  intros H. apply andb_true_iff in H as [H1 H2].
  apply negb_true_iff in H1. rewrite H1, H2. simpl.
  destruct (Qle_bool (y p + y v * SPEED V * dt) 0); simpl;
    [| destruct (Qle_bool (maxY d) (y p + y v * SPEED V * dt)); simpl ];
    split; reflexivity.
Qed.

Lemma updater_top :
  clamped_top V v dt p = true ->
  y (newVelocity (updater V d v dt p)) = Qabs (y v)
  /\ y (newPosition (updater V d v dt p)) = 0.
Proof.
  unfold clamped_top, updater, check_vertical, check_horizontal. simpl.
  intros Hy.
  destruct (Qle_bool (x p + x v * SPEED V * dt) 0); simpl;
    [| destruct (Qle_bool (maxX d) (x p + x v * SPEED V * dt)); simpl ];
    rewrite Hy; simpl; split; reflexivity.
Qed.

Lemma updater_bottom :
  clamped_bottom V d v dt p = true ->
  y (newVelocity (updater V d v dt p)) = - Qabs (y v)
  /\ y (newPosition (updater V d v dt p)) = maxY d.
Proof.
  unfold clamped_bottom, updater, check_vertical, check_horizontal. simpl.
  intros H. apply andb_true_iff in H as [H1 H2].
  apply negb_true_iff in H1.
  destruct (Qle_bool (x p + x v * SPEED V * dt) 0); simpl;
    [| destruct (Qle_bool (maxX d) (x p + x v * SPEED V * dt)); simpl ];
    rewrite H1, H2; simpl; split; reflexivity.
Qed.

(** A collision is detected exactly when one of the four branches is
    taken. *)
Lemma collisionDetected_spec :
  collisionDetected (updater V d v dt p)
  = clamped_left V v dt p || clamped_right V d v dt p
    || clamped_top V v dt p || clamped_bottom V d v dt p.
Proof.
  unfold clamped_left, clamped_right, clamped_top, clamped_bottom.
  unfold updater, check_vertical, check_horizontal. simpl.
  destruct (Qle_bool (x p + x v * SPEED V * dt) 0); simpl;
    [| destruct (Qle_bool (maxX d) (x p + x v * SPEED V * dt)); simpl ];
    (destruct (Qle_bool (y p + y v * SPEED V * dt) 0); simpl;
     [| destruct (Qle_bool (maxY d) (y p + y v * SPEED V * dt)); simpl ]);
    reflexivity.
Qed.

(** Without a collision the updater returns the candidate and leaves the
    velocity alone. *)
Lemma updater_no_collision :
  collisionDetected (updater V d v dt p) = false ->
  newPosition (updater V d v dt p) = candidate V v dt p
  /\ newVelocity (updater V d v dt p) = v
  /\ strictly_inside d (candidate V v dt p).
Proof.
  unfold strictly_inside, updater, check_vertical, check_horizontal.
  simpl.
  case_Qle (x p + x v * SPEED V * dt) 0; simpl;
    [| case_Qle (maxX d) (x p + x v * SPEED V * dt); simpl ];
    (case_Qle (y p + y v * SPEED V * dt) 0; simpl;
     [| case_Qle (maxY d) (y p + y v * SPEED V * dt); simpl ]);
    intro H; try discriminate H.
  repeat split; assumption.
Qed.

(** A candidate strictly inside the bounds does not collide. *)
Lemma strictly_inside_no_collision :
  strictly_inside d (candidate V v dt p) ->
  collisionDetected (updater V d v dt p) = false.
Proof.
  unfold strictly_inside, updater, check_vertical, check_horizontal.
  simpl. intros (H1 & H2 & H3 & H4).
  case_Qle (x p + x v * SPEED V * dt) 0; [lra|]. simpl.
  case_Qle (maxX d) (x p + x v * SPEED V * dt); [lra|]. simpl.
  case_Qle (y p + y v * SPEED V * dt) 0; [lra|]. simpl.
  case_Qle (maxY d) (y p + y v * SPEED V * dt); [lra|]. reflexivity.
Qed.

End UpdaterFacts.

(** ** Label and colour selection *)

Lemma available_In (pool : list string) (current : option string)
      (w : string) :
  In w (available pool current) <-> In w pool /\ strict_neq w current = true.
Proof. unfold available. apply filter_In. Qed.

Lemma array_get_In {A : Type} (arr : list A) (i : Z) (a : A) :
  array_get arr i = Some a -> In a arr.
Proof.
  unfold array_get. destruct (i <? 0)%Z; [discriminate|].
  apply nth_error_In.
Qed.

(** Whatever is picked lies in the pool and differs from the current
    item. *)
Lemma pick_Some (pool : list string) (current : option string) (r : Q)
      (w : string) :
  pick pool current r = Some w ->
  In w pool /\ strict_neq w current = true.
Proof.
  unfold pick. intro H. apply array_get_In in H.
  apply available_In. exact H.
Qed.

Lemma pick_neq (pool : list string) (c : string) (r : Q) :
  pick pool (Some c) r <> Some c.
Proof.
  intro H. apply pick_Some in H as [_ H]. simpl in H.
  rewrite String.eqb_refl in H. discriminate.
Qed.

(** A random number in $[0,1)$ indexes a non-empty array. *)
Lemma random_index_range {A : Type} (r : Q) (arr : list A) :
  0 <= r -> r < 1 -> arr <> [] ->
  (0 <= random_index r arr < Z.of_nat (List.length arr))%Z.
Proof.
  intros Hr0 Hr1 Hne. unfold random_index.
  set (n := Z.of_nat (List.length arr)).
  assert (Hn : (0 < n)%Z).
  { subst n. destruct arr; [congruence | simpl; lia]. }
  assert (HnQ : 0 < inject_Z n).
  { change 0 with (inject_Z 0). rewrite <- Zlt_Qlt. exact Hn. }
  split.
  - change 0%Z with (Qfloor (inject_Z 0)).
    apply Qfloor_resp_le. change (inject_Z 0) with 0. nra.
  - apply Z.lt_nge. intro Hge.
    assert (Hle : inject_Z n <= r * inject_Z n).
    { apply Qle_trans with (inject_Z (Qfloor (r * inject_Z n))).
      - rewrite <- Zle_Qle. exact Hge.
      - apply Qfloor_le. }
    nra.
Qed.

Lemma array_get_in_range {A : Type} (arr : list A) (i : Z) :
  (0 <= i < Z.of_nat (List.length arr))%Z ->
  exists a, array_get arr i = Some a.
Proof.
  intros [H0 H1]. unfold array_get.
  destruct (i <? 0)%Z eqn:E; [apply Z.ltb_lt in E; lia|].
  destruct (nth_error arr (Z.to_nat i)) as [a|] eqn:En; [eauto|].
  apply nth_error_None in En. lia.
Qed.

(** Two distinct items in the pool leave something available whatever the
    current item is. *)
Lemma available_nonempty (pool : list string) (current : option string)
      (a b : string) :
  In a pool -> In b pool -> a <> b -> available pool current <> [].
Proof.
  intros Ha Hb Hab Hnil.
  assert (Hno : forall w, In w pool -> strict_neq w current = false).
  { intros w Hw. destruct (strict_neq w current) eqn:E; [|reflexivity].
    assert (Hin : In w (available pool current))
      by (apply available_In; auto).
    rewrite Hnil in Hin. destruct Hin. }
  pose proof (Hno a Ha) as Ea. pose proof (Hno b Hb) as Eb.
  destruct current as [c|]; simpl in Ea, Eb; [|discriminate].
  apply negb_false_iff, String.eqb_eq in Ea.
  apply negb_false_iff, String.eqb_eq in Eb. congruence.
Qed.

Lemma pick_total (pool : list string) (current : option string) (r : Q)
      (a b : string) :
  In a pool -> In b pool -> a <> b -> 0 <= r -> r < 1 ->
  available pool current <> []
  /\ (0 <= random_index r (available pool current)
      < Z.of_nat (List.length (available pool current)))%Z
  /\ exists w, pick pool current r = Some w
               /\ In w pool /\ Some w <> current.
Proof.
  intros Ha Hb Hab Hr0 Hr1.
  pose proof (available_nonempty pool current a b Ha Hb Hab) as Hne.
  pose proof (random_index_range r _ Hr0 Hr1 Hne) as Hidx.
  repeat split; try tauto; try lia.
  destruct (array_get_in_range _ _ Hidx) as [w Hw].
  exists w. split; [exact Hw|].
  destruct (pick_Some pool current r w Hw) as [Hin Hneq].
  split; [exact Hin|].
  intro Heq. subst current. simpl in Hneq.
  rewrite String.eqb_refl in Hneq. discriminate.
Qed.

(** ** The frame update on the component state *)

Section AnimateFacts.

Variable V : Variant.
Variable random : nat -> Q.

(** [onCollision] touches the label, the colour and the random stream
    only. *)
Lemma onCollision_frame (st : State) :
  position (onCollision V random st) = position st
  /\ velocity (onCollision V random st) = velocity st
  /\ dimensions (onCollision V random st) = dimensions st
  /\ lastTimeRef (onCollision V random st) = lastTimeRef st
  /\ isMotionEnabled (onCollision V random st) = isMotionEnabled st.
Proof.
  unfold onCollision, changeWordAndColor, changeWord.
  destruct (COLOR_POOL V); repeat split; reflexivity.
Qed.

Lemma onCollision_host (st : State) :
  animationRef (onCollision V random st) = animationRef st
  /\ effectCleanup (onCollision V random st) = effectCleanup st
  /\ frameRequests (onCollision V random st) = frameRequests st
  /\ nextHandle (onCollision V random st) = nextHandle st.
Proof.
  unfold onCollision, changeWordAndColor, changeWord.
  destruct (COLOR_POOL V); repeat split; reflexivity.
Qed.

Lemma onCollision_word (st : State) :
  currentWord (onCollision V random st)
  = pick (WORD_POOL V) (currentWord st) (random (randomCalls st)).
Proof.
  unfold onCollision, changeWordAndColor, changeWord.
  destruct (COLOR_POOL V); reflexivity.
Qed.

Lemma animate_position (t : Q) (st : State) :
  position (animate V random t st) = newPosition (frame_locals V t st).
Proof. reflexivity. Qed.

Lemma animate_velocity (t : Q) (st : State) :
  velocity (animate V random t st) = newVelocity (frame_locals V t st).
Proof.
  unfold animate. cbn [velocity requestAnimationFrame setPosition].
  destruct (collisionDetected (frame_locals V t st)) eqn:E.
  - destruct (onCollision_frame
                (setVelocity (newVelocity (frame_locals V t st))
                             (set_lastTimeRef t st)))
      as (_ & Hv & _).
    rewrite Hv. reflexivity.
  - unfold frame_locals in *.
    destruct (updater_no_collision V _ _ _ _ E) as (_ & Hv & _).
    rewrite Hv. reflexivity.
Qed.

Lemma animate_dimensions (t : Q) (st : State) :
  dimensions (animate V random t st) = dimensions st.
Proof.
  unfold animate. cbn [dimensions requestAnimationFrame setPosition].
  destruct (collisionDetected (frame_locals V t st)); [|reflexivity].
  destruct (onCollision_frame
              (setVelocity (newVelocity (frame_locals V t st))
                           (set_lastTimeRef t st)))
    as (_ & _ & Hd & _).
  rewrite Hd. reflexivity.
Qed.

Lemma animate_lastTimeRef (t : Q) (st : State) :
  lastTimeRef (animate V random t st) = t.
Proof.
  unfold animate. cbn [lastTimeRef requestAnimationFrame setPosition].
  destruct (collisionDetected (frame_locals V t st)); [|reflexivity].
  destruct (onCollision_frame
              (setVelocity (newVelocity (frame_locals V t st))
                           (set_lastTimeRef t st)))
    as (_ & _ & _ & Ht & _).
  rewrite Ht. reflexivity.
Qed.

Lemma animate_isMotionEnabled (t : Q) (st : State) :
  isMotionEnabled (animate V random t st) = isMotionEnabled st.
Proof.
  unfold animate. cbn [isMotionEnabled requestAnimationFrame setPosition].
  destruct (collisionDetected (frame_locals V t st)); [|reflexivity].
  destruct (onCollision_frame
              (setVelocity (newVelocity (frame_locals V t st))
                           (set_lastTimeRef t st)))
    as (_ & _ & _ & _ & Hm).
  rewrite Hm. reflexivity.
Qed.

(** [animate] ends by requesting the next frame. *)
Lemma animate_host (t : Q) (st : State) :
  animationRef (animate V random t st) = Some (nextHandle st)
  /\ effectCleanup (animate V random t st) = effectCleanup st
  /\ frameRequests (animate V random t st)
     = frameRequests st ++ [nextHandle st].
Proof.
  unfold animate.
  cbn [animationRef effectCleanup frameRequests nextHandle
       requestAnimationFrame setPosition].
  destruct (collisionDetected (frame_locals V t st));
    [| repeat split; reflexivity].
  destruct (onCollision_host
              (setVelocity (newVelocity (frame_locals V t st))
                           (set_lastTimeRef t st)))
    as (_ & Hc & Hq & Hn).
  rewrite Hc, Hq, Hn. repeat split; reflexivity.
Qed.

Lemma animate_currentWord (t : Q) (st : State) :
  currentWord (animate V random t st)
  = if collisionDetected (frame_locals V t st)
    then pick (WORD_POOL V) (currentWord st) (random (randomCalls st))
    else currentWord st.
Proof.
  unfold animate. cbn [currentWord requestAnimationFrame setPosition].
  destruct (collisionDetected (frame_locals V t st)); [|reflexivity].
  rewrite onCollision_word. reflexivity.
Qed.

Lemma animate_currentColor_quiet (t : Q) (st : State) :
  collisionDetected (frame_locals V t st) = false ->
  currentColor (animate V random t st) = currentColor st.
Proof.
  intro E. unfold animate. rewrite E. reflexivity.
Qed.

(** The interval of the first tick and of the later ones. *)
Lemma deltaTime_at_first (t : Q) (st : State) :
  lastTimeRef st == 0 -> deltaTime_at t st == 0.
Proof.
  intro H. unfold deltaTime_at.
  apply Qeq_eq_bool in H. rewrite H. field.
Qed.

Lemma deltaTime_at_later (t : Q) (st : State) :
  ~ lastTimeRef st == 0 ->
  deltaTime_at t st == (t - lastTimeRef st) / 1000.
Proof.
  intro H. unfold deltaTime_at.
  destruct (Qeq_bool (lastTimeRef st) 0) eqn:E.
  - apply Qeq_bool_eq in E. contradiction.
  - reflexivity.
Qed.

End AnimateFacts.

(** ** Bounds, reflection and the scenario *)

(** C1, as amended: when the label is no wider and no taller than its
    container, the position a frame update stores satisfies
    0 <= x <= containerWidth - labelWidth and
    0 <= y <= containerHeight - labelHeight, for every prior position,
    velocity and timestamp (so for every deltaTime, non-negative or not). *)
Theorem position_stays_in_bounds
        (V : Variant) (random : nat -> Q) (t : Q) (st : State) :
  wordWidth (dimensions st) <= width (dimensions st) ->
  wordHeight (dimensions st) <= height (dimensions st) ->
  in_bounds (dimensions st) (position (animate V random t st)).
Proof.
  intros Hw Hh. rewrite animate_position. unfold frame_locals.
  apply updater_in_bounds; assumption.
Qed.

Lemma position_stays_in_bounds_witness :
  in_bounds (dimensions scenario_state)
            (position (animate BouncingWord_toggle (constant_random 0)
                               1100 scenario_state)).
Proof.
  apply (position_stays_in_bounds BouncingWord_toggle (constant_random 0)
                                  1100 scenario_state).
  - vm_compute. discriminate.
  - vm_compute. discriminate.
Defined.

(** C1, as stated, fails when the label is wider than the container: all
    four dimensions are known and positive, deltaTime is 0.016 s, and the
    stored x is 80 - 100 = -20. *)
Lemma position_escapes_narrow_container :
  0 < width (dimensions narrow_state)
  /\ 0 < height (dimensions narrow_state)
  /\ 0 < wordWidth (dimensions narrow_state)
  /\ 0 < wordHeight (dimensions narrow_state)
  /\ 0 <= deltaTime_at 1016 narrow_state
  /\ x (position (animate BouncingWord_toggle (constant_random 0)
                          1016 narrow_state)) == - (20)
  /\ ~ in_bounds (dimensions narrow_state)
         (position (animate BouncingWord_toggle (constant_random 0)
                            1016 narrow_state)).
Proof.
  repeat split; try (vm_compute; congruence).
  intros (H & _). vm_compute in H. apply H. reflexivity.
Qed.

(** C2: container 500 x 300, label 100 x 50, position (480, 10), velocity
    (1, 1), deltaTime 0.1 s and speed 100 px/s: one frame update stores
    position (400, 20) and velocity (-1, 1), detects a collision, and the
    label changes. *)
Theorem scenario_right_wall
        (V : Variant) (random : nat -> Q) (t : Q) (st : State) (w : string) :
  SPEED V == 100 ->
  dimensions st = mkDimensions 500 300 100 50 ->
  position st = mkVec2 480 10 ->
  velocity st = mkVec2 1 1 ->
  deltaTime_at t st == 1 # 10 ->
  currentWord st = Some w ->
  position (animate V random t st) =v= mkVec2 400 20
  /\ velocity (animate V random t st) =v= mkVec2 (- (1)) 1
  /\ collisionDetected (frame_locals V t st) = true
  /\ currentWord (animate V random t st) <> currentWord st.
Proof.
  intros Hs Hd Hp Hv Hdt Hw.
  assert (Hstep : 1 * SPEED V * deltaTime_at t st == 10).
  { rewrite Hs, Hdt. reflexivity. }
  rewrite animate_position, animate_velocity, animate_currentWord.
  unfold frame_locals. rewrite Hd, Hp, Hv, Hw.
  unfold updater, check_vertical, check_horizontal, maxX, maxY, vec_eq.
  cbn [x y newPosition newVelocity collisionDetected candidate
       width height wordWidth wordHeight].
  case_Qle (480 + 1 * SPEED V * deltaTime_at t st) 0; [lra|].
  case_Qle (500 - 100) (480 + 1 * SPEED V * deltaTime_at t st); [|lra].
  cbn [x y newPosition newVelocity collisionDetected].
  case_Qle (10 + 1 * SPEED V * deltaTime_at t st) 0; [lra|].
  case_Qle (300 - 50) (10 + 1 * SPEED V * deltaTime_at t st); [lra|].
  cbn [x y newPosition newVelocity collisionDetected].
  repeat split; try reflexivity; try lra.
  apply pick_neq.
Qed.

Lemma scenario_right_wall_witness :
  position (animate BouncingWord_toggle (constant_random 0)
                    1100 scenario_state) =v= mkVec2 400 20
  /\ velocity (animate BouncingWord_toggle (constant_random 0)
                       1100 scenario_state) =v= mkVec2 (- (1)) 1
  /\ collisionDetected (frame_locals BouncingWord_toggle 1100 scenario_state)
     = true
  /\ currentWord (animate BouncingWord_toggle (constant_random 0)
                          1100 scenario_state)
     <> currentWord scenario_state.
Proof.
  apply (scenario_right_wall BouncingWord_toggle (constant_random 0)
                             1100 scenario_state "self"%string);
    reflexivity.
Defined.

(** C9: a frame update changes at most the sign of each velocity
    component: |vx'| = |vx| and |vy'| = |vy|. *)
Theorem reflection_preserves_magnitude
        (V : Variant) (random : nat -> Q) (t : Q) (st : State) :
  Qabs (x (velocity (animate V random t st))) == Qabs (x (velocity st))
  /\ Qabs (y (velocity (animate V random t st))) == Qabs (y (velocity st)).
Proof.
  rewrite animate_velocity. unfold frame_locals.
  split; [apply updater_abs_x | apply updater_abs_y].
Qed.

(** ** Label changes *)

(** C4: the label selected by a collision-triggered change differs from
    the label before it, in [onCollision] itself and in the frame update
    that detects the collision; in the colour variant the new colour
    differs from the previous colour. *)
Theorem collision_changes_label
        (V : Variant) (random : nat -> Q) (st : State) (w : string) :
  currentWord st = Some w ->
  currentWord (onCollision V random st) <> Some w
  /\ (forall t, collisionDetected (frame_locals V t st) = true ->
                currentWord (animate V random t st) <> Some w)
  /\ (forall colors c,
         COLOR_POOL V = Some colors -> currentColor st = Some c ->
         currentColor (onCollision V random st) <> Some c).
Proof.
  intro Hw. repeat split.
  - rewrite onCollision_word, Hw. apply pick_neq.
  - intros t Hc. rewrite animate_currentWord, Hc, Hw. apply pick_neq.
  - intros colors c Hpool Hc.
    unfold onCollision, changeWordAndColor. rewrite Hpool.
    cbn [currentColor setCurrentColor]. 
    change (currentColor (changeWord V random st)) with (currentColor st).
    rewrite Hc. apply pick_neq.
Qed.

Lemma collision_changes_label_witness :
  currentWord (onCollision BouncingWord_color (constant_random (1 # 2))
                           (initialState BouncingWord_color))
  <> Some "self"%string
  /\ currentColor (onCollision BouncingWord_color (constant_random (1 # 2))
                               (initialState BouncingWord_color))
     <> Some "hsl(0 0% 100%)"%string.
Proof.
  destruct (collision_changes_label
              BouncingWord_color (constant_random (1 # 2))
              (initialState BouncingWord_color) "self"%string eq_refl)
    as (Hw & _ & Hc).
  split; [exact Hw|].
  apply (Hc COLOR_POOL_8); reflexivity.
Defined.

(** C10: in each of the three components, whatever the current word (or
    colour) is, the filtered pool is not empty, the index
    floor(r * length) of a random r in [0, 1) lies within it, and the
    selected word (colour) is a defined element of its pool. *)
Theorem selection_total (V : Variant) (current : option string) (r : Q) :
  In V [BouncingWord_toggle; BouncingWord_color; BouncingAnimation] ->
  0 <= r -> r < 1 ->
  (available (WORD_POOL V) current <> []
   /\ (0 <= random_index r (available (WORD_POOL V) current)
       < Z.of_nat (List.length (available (WORD_POOL V) current)))%Z
   /\ exists w, pick (WORD_POOL V) current r = Some w
                /\ In w (WORD_POOL V) /\ Some w <> current)
  /\ (forall colors, COLOR_POOL V = Some colors ->
      available colors current <> []
      /\ (0 <= random_index r (available colors current)
          < Z.of_nat (List.length (available colors current)))%Z
      /\ exists c, pick colors current r = Some c
                   /\ In c colors /\ Some c <> current).
Proof.
  intros HV Hr0 Hr1. split.
  - apply pick_total with (a := "self"%string) (b := "values"%string);
      try assumption; try discriminate;
      simpl in HV; destruct HV as [<- | [<- | [<- | []]]];
      simpl; tauto.
  - intros colors Hc.
    assert (colors = COLOR_POOL_8) as ->.
    { simpl in HV; destruct HV as [<- | [<- | [<- | []]]];
        simpl in Hc; congruence. }
    apply pick_total
      with (a := "hsl(0 0% 100%)"%string) (b := "hsl(45 100% 75%)"%string);
      try assumption; try discriminate; simpl; tauto.
Qed.

Lemma selection_total_witness :
  exists w, pick (WORD_POOL BouncingWord_color) (Some "self"%string) (1 # 2)
            = Some w
            /\ In w (WORD_POOL BouncingWord_color)
            /\ Some w <> Some "self"%string.
Proof.
  assert (HV : In BouncingWord_color
                  [BouncingWord_toggle; BouncingWord_color;
                   BouncingAnimation]) by (simpl; tauto).
  assert (H0 : 0 <= 1 # 2) by (vm_compute; discriminate).
  assert (H1 : 1 # 2 < 1) by reflexivity.
  destruct (selection_total BouncingWord_color (Some "self"%string) (1 # 2)
                            HV H0 H1) as [(_ & _ & H) _].
  exact H.
Defined.

(** ** The first tick *)

Lemma vec_eq_refl (p : Vec2) : p =v= p.
Proof. split; reflexivity. Qed.

Lemma vec_eq_sym (p q : Vec2) : p =v= q -> q =v= p.
Proof. intros [H1 H2]. split; symmetry; assumption. Qed.


Lemma strictly_inside_vec_eq (d : Dimensions) (p q : Position) :
  p =v= q -> strictly_inside d p -> strictly_inside d q.
Proof.
  intros [Hx Hy] (H1 & H2 & H3 & H4). unfold strictly_inside.
  rewrite <- Hx, <- Hy. tauto.
Qed.


Lemma candidate_zero (V : Variant) (v : Velocity) (dt : Q) (p : Position) :
  dt == 0 -> candidate V v dt p =v= p.
Proof.
  intro H. unfold candidate, vec_eq. cbn [x y]. rewrite H. split; ring.
Qed.

(** A frame whose candidate is strictly inside the bounds moves the word
    to the candidate and changes nothing else of the simulation. *)
Lemma animate_quiet (V : Variant) (random : nat -> Q) (t : Q) (st : State) :
  collisionDetected (frame_locals V t st) = false ->
  position (animate V random t st)
  = candidate V (velocity st) (deltaTime_at t st) (position st)
  /\ velocity (animate V random t st) = velocity st
  /\ currentWord (animate V random t st) = currentWord st
  /\ currentColor (animate V random t st) = currentColor st
  /\ strictly_inside (dimensions st) (position (animate V random t st)).
Proof.
  intro E.
  rewrite animate_position, animate_velocity, animate_currentWord, E.
  rewrite (animate_currentColor_quiet V random t st E).
  unfold frame_locals in *.
  destruct (updater_no_collision V _ _ _ _ E) as (Hp & Hv & Hin).
  rewrite Hp, Hv. repeat split; try reflexivity; apply Hin.
Qed.

(** C6, as amended: on the very first tick ([lastTimeRef] still 0) of a
    word that lies strictly inside the bounds, the update records the
    timestamp and leaves position, velocity, label and colour unchanged;
    the next tick measures its interval from this one. *)
Theorem first_tick_records_baseline
        (V : Variant) (random : nat -> Q) (t : Q) (st : State) :
  lastTimeRef st == 0 ->
  strictly_inside (dimensions st) (position st) ->
  lastTimeRef (animate V random t st) = t
  /\ position (animate V random t st) =v= position st
  /\ velocity (animate V random t st) = velocity st
  /\ currentWord (animate V random t st) = currentWord st
  /\ currentColor (animate V random t st) = currentColor st
  /\ (forall t', ~ t == 0 ->
        deltaTime_at t' (animate V random t st) == (t' - t) / 1000).
Proof.
  intros H0 Hin.
  pose proof (deltaTime_at_first t st H0) as Hdt.
  pose proof (candidate_zero V (velocity st) _ (position st) Hdt) as Hc.
  assert (E : collisionDetected (frame_locals V t st) = false).
  { unfold frame_locals. apply strictly_inside_no_collision.
    apply strictly_inside_vec_eq with (p := position st);
      [apply vec_eq_sym; exact Hc | exact Hin]. }
  destruct (animate_quiet V random t st E) as (Hp & Hv & Hw & Hcol & _).
  split; [apply animate_lastTimeRef|].
  split; [rewrite Hp; exact Hc|].
  repeat split; try assumption.
  intros t' Ht. rewrite deltaTime_at_later;
    rewrite animate_lastTimeRef; [reflexivity | exact Ht].
Qed.

Lemma first_tick_records_baseline_witness :
  position (animate BouncingWord_toggle (constant_random 0) 16
                    (set_lastTimeRef 0 open_field_state))
  =v= mkVec2 200 100
  /\ currentWord (animate BouncingWord_toggle (constant_random 0) 16
                          (set_lastTimeRef 0 open_field_state))
     = Some "self"%string.
Proof.
  assert (H0 : lastTimeRef (set_lastTimeRef 0 open_field_state) == 0)
    by reflexivity.
  assert (Hin : strictly_inside
                  (dimensions (set_lastTimeRef 0 open_field_state))
                  (position (set_lastTimeRef 0 open_field_state)))
    by (repeat split; reflexivity).
  destruct (first_tick_records_baseline
              BouncingWord_toggle (constant_random 0) 16
              (set_lastTimeRef 0 open_field_state) H0 Hin)
    as (_ & Hp & _ & Hw & _).
  split; [exact Hp | exact Hw].
Defined.

(** C6, as stated, fails for a word that starts on a wall.  When
    [Math.random] returns 0 at mount the word starts in the corner (0, 0)
    heading up and left; its first tick has deltaTime 0, yet both boundary
    checks fire: the velocity is reflected and the label changes from
    "self" to "values". *)
Lemma first_tick_collides_in_corner :
  lastTimeRef corner_start == 0
  /\ currentWord corner_start = Some "self"%string
  /\ currentWord (animate BouncingWord_toggle (constant_random 0) 16
                          corner_start) = Some "values"%string
  /\ x (velocity corner_start) < 0
  /\ 0 < x (velocity (animate BouncingWord_toggle (constant_random 0) 16
                              corner_start))
  /\ ~ (velocity (animate BouncingWord_toggle (constant_random 0) 16
                          corner_start) =v= velocity corner_start).
Proof.
  repeat split; try reflexivity.
  intros [H _]. vm_compute in H. discriminate H.
Qed.

(** ** Frame-rate independence *)

Section FrameRate.

Variable V : Variant.
Variable random : nat -> Q.


End FrameRate.




(** ** Invariants of the reachable states *)

Lemma runFrame_idle (V : Variant) (random : nat -> Q) (t : Q) (st : State) :
  frameRequests st = [] -> runFrame V random t st = st.
Proof.
  intro H. unfold runFrame. rewrite H. cbn [fold_left].
  destruct st. cbn in *. subst. reflexivity.
Qed.

Lemma runFrames_idle
      (V : Variant) (random : nat -> Q) (times : list Q) (st : State) :
  frameRequests st = [] -> runFrames V random times st = st.
Proof.
  intro H. induction times as [| t times' IH]; [reflexivity|].
  unfold runFrames in *. cbn [fold_left].
  rewrite runFrame_idle by exact H. exact IH.
Qed.

Lemma runFrame_single
      (V : Variant) (random : nat -> Q) (t : Q) (st : State) (h : positive) :
  frameRequests st = [h] ->
  runFrame V random t st = animate V random t (set_frameRequests [] st).
Proof. intro H. unfold runFrame. rewrite H. reflexivity. Qed.

Section Invariants.

Variable V : Variant.
Variable random : nat -> Q.
Variable cosd sind : Q -> Q.

(** *** The velocity never vanishes *)

Lemma animate_moving (t : Q) (st : State) :
  moving st -> moving (animate V random t st).
Proof.
  intros [Hx Hy]. unfold moving. rewrite animate_velocity.
  unfold frame_locals. split; intro H0.
  - apply Hx. apply Qabs_zero_iff. rewrite <- updater_abs_x.
    apply Qabs_zero_iff. exact H0.
  - apply Hy. apply Qabs_zero_iff. rewrite <- updater_abs_y.
    apply Qabs_zero_iff. exact H0.
Qed.

Lemma rerunAnimationEffect_velocity (st : State) :
  velocity (rerunAnimationEffect V st) = velocity st.
Proof.
  unfold rerunAnimationEffect, animationEffect, animationCleanup.
  destruct (effectCleanup st); [destruct (animationRef st)|];
    repeat match goal with
           | |- context [if ?b then _ else _] => destruct b
           end; reflexivity.
Qed.

Lemma step_moving (e : Event) (st : State) :
  moving st -> moving (step V random e st).
Proof.
  intro Hm. destruct e as [t | d | b |]; cbn [step].
  - destruct (frameRequests st) as [| h q] eqn:Eq.
    + rewrite runFrame_idle by exact Eq. exact Hm.
    + unfold runFrame. rewrite Eq.
      assert (Hm0 : moving (set_frameRequests [] st)) by exact Hm.
      revert Hm0. generalize (set_frameRequests [] st).
      generalize (h :: q).
      induction l as [| a l IH]; intros s Hs; [exact Hs|].
      cbn [fold_left]. apply IH. apply animate_moving. exact Hs.
  - unfold moving. rewrite rerunAnimationEffect_velocity. exact Hm.
  - destruct (motionGate V); [|exact Hm].
    unfold moving. rewrite rerunAnimationEffect_velocity. exact Hm.
  - destruct (controls V); exact Hm.
Qed.

Lemma mount_moving (d : Dimensions) (reduceMotion : bool) :
  random_ok random -> start_angle_ok cosd sind ->
  moving (mount V random cosd sind d reduceMotion).
Proof.
  intros Hr Ha.
  assert (Hv : velocity (mount V random cosd sind d reduceMotion)
               = {| x := cosd (random 2%nat * 30 + 30)
                         * (if Qlt_bool (1 # 2) (random 3%nat)
                            then 1 else - (1));
                    y := sind (random 2%nat * 30 + 30)
                         * (if Qlt_bool (1 # 2) (random 4%nat)
                            then 1 else - (1)) |}).
  { unfold mount, animationEffect.
    repeat match goal with
           | |- context [if ?b then _ else _] =>
               lazymatch b with
               | Qlt_bool (1 # 2) _ => fail
               | _ => destruct b
               end
           end; reflexivity. }
  destruct (Hr 2%nat) as [H0 H1].
  destruct (Ha (random 2%nat * 30 + 30)) as [Hc Hs]; [lra | lra |].
  unfold moving. rewrite Hv. cbn [x y].
  split; intro H.
  - destruct (Qlt_bool (1 # 2) (random 3%nat)); nra.
  - destruct (Qlt_bool (1 # 2) (random 4%nat)); nra.
Qed.

Lemma Reachable_moving (st : State) :
  random_ok random -> start_angle_ok cosd sind ->
  Reachable V random cosd sind st -> moving st.
Proof.
  intros Hr Ha HR. induction HR as [d rm | e st HR IH].
  - apply mount_moving; assumption.
  - apply step_moving. exact IH.
Qed.

End Invariants.

Section RequestInvariants.

Variable V : Variant.
Variable random : nat -> Q.
Variable cosd sind : Q -> Q.

(** *** The pending request is the one [animationRef] names *)

(** The cleanup of a tracked state leaves no request behind. *)
Lemma cleanup_clears (st : State) :
  requests_tracked st ->
  frameRequests (if effectCleanup st then animationCleanup st else st)
  = [].
Proof.
  intros [Hq | (Hc & h & Hq & Hr)].
  - unfold animationCleanup.
    destruct (effectCleanup st); [destruct (animationRef st)|];
      cbn; rewrite ?Hq; reflexivity.
  - rewrite Hc. unfold animationCleanup. rewrite Hr. cbn. rewrite Hq.
    cbn. rewrite Pos.eqb_refl. reflexivity.
Qed.

(** The effect body, run when nothing is requested, requests a frame
    only when the gate is open and the container has a size. *)
Lemma animationEffect_ok (st : State) :
  frameRequests st = [] -> loop_ok V (animationEffect V st).
Proof.
  intro Hq. unfold loop_ok, requests_tracked, loop_gated, animationEffect.
  destruct (motionGate V) eqn:Eg; destruct (isMotionEnabled st) eqn:Em;
    cbn [andb negb];
    try (cbn; rewrite Hq; split; [left; reflexivity | split; reflexivity]).
  all: destruct (Qlt_bool 0 (width (dimensions st))) eqn:Ew;
    destruct (Qlt_bool 0 (height (dimensions st))) eqn:Eh;
    cbn [andb]; cbn; rewrite ?Hq; cbn;
    try (apply Qlt_bool_iff in Ew); try (apply Qlt_bool_iff in Eh);
    (split;
     [ first [ left; reflexivity
             | right; split; [reflexivity|]; eexists; split; reflexivity ]
     | split; intros; try reflexivity; try congruence; try tauto ]).
  all: try (rewrite Em in *; discriminate).
Qed.

Lemma rerunAnimationEffect_ok (st : State) :
  requests_tracked st -> loop_ok V (rerunAnimationEffect V st).
Proof.
  intro Ht. unfold rerunAnimationEffect.
  apply animationEffect_ok. apply cleanup_clears. exact Ht.
Qed.

Lemma runFrame_ok (t : Q) (st : State) :
  loop_ok V st -> loop_ok V (runFrame V random t st).
Proof.
  intros [Ht [Hg1 Hg2]].
  destruct Ht as [Hq | (Hc & h & Hq & Hr)].
  - rewrite runFrame_idle by exact Hq.
    split; [left; exact Hq | split; assumption].
  - rewrite (runFrame_single V random t st h Hq).
    destruct (animate_host V random t (set_frameRequests [] st))
      as (Ha & He & Hf).
    unfold loop_ok, requests_tracked, loop_gated.
    rewrite Ha, He, Hf, animate_dimensions, animate_isMotionEnabled.
    cbn. split.
    + right. split; [exact Hc|]. eexists. split; reflexivity.
    + split.
      * intros Hgate Hoff. specialize (Hg1 Hgate Hoff).
        rewrite Hq in Hg1. discriminate.
      * intro Hdim. specialize (Hg2 Hdim).
        rewrite Hq in Hg2. discriminate.
Qed.

Lemma step_ok (e : Event) (st : State) :
  loop_ok V st -> loop_ok V (step V random e st).
Proof.
  intro Hok. destruct e as [t | d | b |]; cbn [step].
  - apply runFrame_ok. exact Hok.
  - apply rerunAnimationEffect_ok. exact (proj1 Hok).
  - destruct (motionGate V) eqn:Eg; [|exact Hok].
    apply rerunAnimationEffect_ok. exact (proj1 Hok).
  - destruct (controls V); exact Hok.
Qed.

Lemma mount_ok (d : Dimensions) (reduceMotion : bool) :
  loop_ok V (mount V random cosd sind d reduceMotion).
Proof.
  unfold mount. apply animationEffect_ok.
  destruct (motionGate V); reflexivity.
Qed.

Lemma Reachable_ok (st : State) :
  Reachable V random cosd sind st -> loop_ok V st.
Proof.
  intro HR. induction HR as [d rm | e st HR IH].
  - apply mount_ok.
  - apply step_ok. exact IH.
Qed.

End RequestInvariants.

(** ** Reflection, idling and the motion gate *)

(** C3: in every frame update of a running component, if x was clamped to
    0 then the velocity afterwards has vx > 0, if x was clamped to
    containerWidth - labelWidth then vx < 0, and likewise for y against
    0 and containerHeight - labelHeight. *)
Theorem reflection_law
        (V : Variant) (random : nat -> Q) (cosd sind : Q -> Q)
        (t : Q) (st : State) :
  random_ok random ->
  start_angle_ok cosd sind ->
  Reachable V random cosd sind st ->
  (clamped_left V (velocity st) (deltaTime_at t st) (position st) = true ->
   x (position (animate V random t st)) = 0
   /\ 0 < x (velocity (animate V random t st)))
  /\ (clamped_right V (dimensions st) (velocity st) (deltaTime_at t st)
                    (position st) = true ->
      x (position (animate V random t st)) = maxX (dimensions st)
      /\ x (velocity (animate V random t st)) < 0)
  /\ (clamped_top V (velocity st) (deltaTime_at t st) (position st) = true ->
      y (position (animate V random t st)) = 0
      /\ 0 < y (velocity (animate V random t st)))
  /\ (clamped_bottom V (dimensions st) (velocity st) (deltaTime_at t st)
                     (position st) = true ->
      y (position (animate V random t st)) = maxY (dimensions st)
      /\ y (velocity (animate V random t st)) < 0).
Proof.
  intros Hr Ha HR.
  destruct (Reachable_moving V random cosd sind st Hr Ha HR) as [Hx Hy].
  pose proof (Qabs_pos_of_nonzero _ Hx) as Hax.
  pose proof (Qabs_pos_of_nonzero _ Hy) as Hay.
  rewrite animate_position, animate_velocity. unfold frame_locals.
  repeat split.
  - apply updater_left; assumption.
  - destruct (updater_left V (dimensions st) _ _ _ H) as [-> _].
    exact Hax.
  - apply updater_right; assumption.
  - destruct (updater_right V (dimensions st) _ _ _ H) as [-> _]. lra.
  - apply updater_top; assumption.
  - destruct (updater_top V (dimensions st) _ _ _ H) as [-> _].
    exact Hay.
  - apply updater_bottom; assumption.
  - destruct (updater_bottom V (dimensions st) _ _ _ H) as [-> _]. lra.
Qed.

Lemma reflection_law_witness :
  x (position (animate BouncingWord_toggle (constant_random 0) 16
                       corner_start)) = 0
  /\ 0 < x (velocity (animate BouncingWord_toggle (constant_random 0) 16
                              corner_start)).
Proof.
  assert (Hr : random_ok (constant_random 0))
    by (intro n; split; [vm_compute; discriminate | reflexivity]).
  assert (Ha : start_angle_ok cos30 sin30)
    by (intros a _ _; split; reflexivity).
  assert (HR : Reachable BouncingWord_toggle (constant_random 0)
                         cos30 sin30 corner_start)
    by apply Reachable_mount.
  destruct (reflection_law BouncingWord_toggle (constant_random 0)
                           cos30 sin30 16 corner_start Hr Ha HR)
    as (Hleft & _).
  apply Hleft. reflexivity.
Defined.

(** C7, as amended: whenever the container width or the container height
    is zero, no per-frame update is requested, and frame ticks leave the
    whole state unchanged. *)
Theorem idle_without_container_size
        (V : Variant) (random : nat -> Q) (cosd sind : Q -> Q)
        (st : State) (times : list Q) :
  Reachable V random cosd sind st ->
  container_dimension_zero (dimensions st) = true ->
  frameRequests st = [] /\ runFrames V random times st = st.
Proof.
  intros HR Hz.
  destruct (Reachable_ok V random cosd sind st HR) as [_ [_ Hdim]].
  assert (Hq : frameRequests st = []).
  { apply Hdim. intros [Hw Hh].
    unfold container_dimension_zero in Hz.
    apply orb_true_iff in Hz as [Hz | Hz]; apply Qeq_bool_eq in Hz; lra. }
  split; [exact Hq | apply runFrames_idle; exact Hq].
Qed.

Lemma idle_without_container_size_witness :
  frameRequests (mount BouncingWord_toggle (constant_random (1 # 2))
                       cos30 sin30 (mkDimensions 0 0 0 0) false) = []
  /\ runFrames BouncingWord_toggle (constant_random (1 # 2)) [16; 32]
               (mount BouncingWord_toggle (constant_random (1 # 2))
                      cos30 sin30 (mkDimensions 0 0 0 0) false)
     = mount BouncingWord_toggle (constant_random (1 # 2))
             cos30 sin30 (mkDimensions 0 0 0 0) false.
Proof.
  apply (idle_without_container_size
           BouncingWord_toggle (constant_random (1 # 2)) cos30 sin30
           (mount BouncingWord_toggle (constant_random (1 # 2))
                  cos30 sin30 (mkDimensions 0 0 0 0) false)
           [16; 32]).
  - apply Reachable_mount.
  - reflexivity.
Defined.

(** C7, as stated, fails when only the label is unmeasured: with a
    container of 500 x 300 and a label box of 0 x 0 the effect requests a
    frame, and two ticks later the word has moved. *)
Lemma unmeasured_label_still_animates :
  Reachable BouncingWord_toggle (constant_random (1 # 2)) cos30 sin30
            unmeasured_label_start
  /\ some_dimension_zero (dimensions unmeasured_label_start) = true
  /\ frameRequests unmeasured_label_start = [1%positive]
  /\ ~ (position (runFrames BouncingWord_toggle (constant_random (1 # 2))
                            [16; 32] unmeasured_label_start)
        =v= position unmeasured_label_start).
Proof.
  split; [apply Reachable_mount|].
  repeat split; try reflexivity.
  intros [H _]. vm_compute in H. discriminate H.
Qed.

(** C8: in a component with the motion gate, while motion is disabled no
    update is requested, and any number of frame ticks leaves the position
    (indeed the whole state) as it was. *)
Theorem idle_when_motion_disabled
        (V : Variant) (random : nat -> Q) (cosd sind : Q -> Q)
        (st : State) (times : list Q) :
  Reachable V random cosd sind st ->
  motionGate V = true ->
  isMotionEnabled st = false ->
  frameRequests st = []
  /\ runFrames V random times st = st
  /\ position (runFrames V random times st) = position st.
Proof.
  intros HR Hg Hoff.
  destruct (Reachable_ok V random cosd sind st HR) as [_ [Hgate _]].
  pose proof (Hgate Hg Hoff) as Hq.
  pose proof (runFrames_idle V random times st Hq) as Hrun.
  repeat split; [exact Hq | exact Hrun | rewrite Hrun; reflexivity].
Qed.

Lemma idle_when_motion_disabled_witness :
  position (runFrames BouncingWord_toggle (constant_random (1 # 2))
                      [16; 32; 48] switched_off)
  = position switched_off.
Proof.
  assert (HR : Reachable BouncingWord_toggle (constant_random (1 # 2))
                         cos30 sin30 switched_off)
    by (apply Reachable_step, Reachable_mount).
  destruct (idle_when_motion_disabled
              BouncingWord_toggle (constant_random (1 # 2)) cos30 sin30
              switched_off [16; 32; 48] HR eq_refl eq_refl)
    as (_ & _ & H).
  exact H.
Defined.

(** * Further properties of the loop *)

(** ** What the effect and the label change leave alone *)

Lemma rerunAnimationEffect_sim (V : Variant) (st : State) :
  position (rerunAnimationEffect V st) = position st
  /\ dimensions (rerunAnimationEffect V st) = dimensions st
  /\ lastTimeRef (rerunAnimationEffect V st) = lastTimeRef st
  /\ isMotionEnabled (rerunAnimationEffect V st) = isMotionEnabled st
  /\ currentWord (rerunAnimationEffect V st) = currentWord st
  /\ currentColor (rerunAnimationEffect V st) = currentColor st
  /\ randomCalls (rerunAnimationEffect V st) = randomCalls st.
Proof.
  unfold rerunAnimationEffect, animationEffect, animationCleanup.
  destruct (effectCleanup st); [destruct (animationRef st)|];
    repeat match goal with
           | |- context [if ?b then _ else _] => destruct b
           end; repeat split; reflexivity.
Qed.

Lemma loop_enabled_iff (V : Variant) (st : State) :
  loop_enabled V st = true <->
  (motionGate V = false \/ isMotionEnabled st = true)
  /\ 0 < width (dimensions st) /\ 0 < height (dimensions st).
Proof.
  unfold loop_enabled.
  rewrite !andb_true_iff, orb_true_iff, negb_true_iff, !Qlt_bool_iff.
  tauto.
Qed.

(** ** Collisions *)

(** X5: a frame detects a collision exactly when its candidate position is
    not strictly inside the bounds; touching a wall counts. *)
Theorem collision_iff_not_strictly_inside
        (V : Variant) (t : Q) (st : State) :
  collisionDetected (frame_locals V t st) = true <->
  ~ strictly_inside (dimensions st)
      (candidate V (velocity st) (deltaTime_at t st) (position st)).
Proof.
  unfold frame_locals. split.
  - intros Hc Hin. apply strictly_inside_no_collision in Hin. congruence.
  - intro Hout.
    destruct (collisionDetected
                (updater V (dimensions st) (velocity st)
                         (deltaTime_at t st) (position st))) eqn:E;
      [reflexivity|].
    exfalso. apply Hout.
    apply (updater_no_collision V _ _ _ _ E).
Qed.

(** X6: when the label is at least as wide as the container, or at least
    as tall, every frame detects a collision and changes the label. *)
Theorem oversized_label_collides_every_frame
        (V : Variant) (random : nat -> Q) (t : Q) (st : State) (w : string) :
  maxX (dimensions st) <= 0 \/ maxY (dimensions st) <= 0 ->
  currentWord st = Some w ->
  collisionDetected (frame_locals V t st) = true
  /\ currentWord (animate V random t st) <> Some w.
Proof.
  intros Hbig Hw.
  assert (E : collisionDetected (frame_locals V t st) = true).
  { destruct (collisionDetected (frame_locals V t st)) eqn:E;
      [reflexivity|].
    unfold frame_locals in E.
    destruct (updater_no_collision V _ _ _ _ E)
      as (_ & _ & H1 & H2 & H3 & H4).
    destruct Hbig; lra. }
  split; [exact E|].
  rewrite animate_currentWord, E, Hw. apply pick_neq.
Qed.

Lemma oversized_label_collides_every_frame_witness :
  collisionDetected (frame_locals BouncingWord_toggle 1016 narrow_state)
  = true
  /\ currentWord (animate BouncingWord_toggle (constant_random 0) 1016
                          narrow_state) <> Some "self"%string.
Proof.
  apply (oversized_label_collides_every_frame
           BouncingWord_toggle (constant_random 0) 1016 narrow_state
           "self"%string).
  - left. vm_compute. discriminate.
  - reflexivity.
Defined.

(** ** The start position and direction *)

Section MountFacts.

Variable V : Variant.
Variable random : nat -> Q.
Variable cosd sind : Q -> Q.
Variable d : Dimensions.
Variable reduceMotion : bool.

Lemma mount_fields :
  position (mount V random cosd sind d reduceMotion)
  = {| x := random 0%nat * maxX d; y := random 1%nat * maxY d |}
  /\ velocity (mount V random cosd sind d reduceMotion)
     = {| x := cosd (start_angle random)
               * (if Qlt_bool (1 # 2) (random 3%nat) then 1 else - (1));
          y := sind (start_angle random)
               * (if Qlt_bool (1 # 2) (random 4%nat) then 1 else - (1)) |}
  /\ dimensions (mount V random cosd sind d reduceMotion) = d
  /\ lastTimeRef (mount V random cosd sind d reduceMotion) = 0
  /\ currentWord (mount V random cosd sind d reduceMotion)
     = Some "self"%string
  /\ currentColor (mount V random cosd sind d reduceMotion)
     = match COLOR_POOL V with
       | Some colors => nth_error colors 0
       | None => None
       end.
Proof.
  unfold mount, animationEffect, start_angle.
  repeat match goal with
         | |- context [if ?b then _ else _] =>
             lazymatch b with
             | Qlt_bool (1 # 2) _ => fail
             | _ => destruct b
             end
         end; repeat split; reflexivity.
Qed.

End MountFacts.

(** X1: when the label fits in the container, the start position drawn at
    mount lies within the bounds. *)
Theorem start_position_in_bounds
        (V : Variant) (random : nat -> Q) (cosd sind : Q -> Q)
        (d : Dimensions) (reduceMotion : bool) :
  random_ok random ->
  wordWidth d <= width d ->
  wordHeight d <= height d ->
  in_bounds d (position (mount V random cosd sind d reduceMotion)).
Proof.
  intros Hr Hw Hh.
  destruct (mount_fields V random cosd sind d reduceMotion) as (Hp & _).
  rewrite Hp. unfold in_bounds, maxX, maxY. cbn [x y].
  destruct (Hr 0%nat) as [H00 H01]. destruct (Hr 1%nat) as [H10 H11].
  repeat split; nra.
Qed.

Lemma start_position_in_bounds_witness :
  in_bounds (mkDimensions 500 300 100 50)
            (position (mount BouncingWord_color (constant_random (1 # 2))
                             cos30 sin30 (mkDimensions 500 300 100 50)
                             false)).
Proof.
  apply (start_position_in_bounds
           BouncingWord_color (constant_random (1 # 2)) cos30 sin30
           (mkDimensions 500 300 100 50) false).
  - intro n; split; [vm_compute; discriminate | reflexivity].
  - vm_compute; discriminate.
  - vm_compute; discriminate.
Defined.

(** ** The per-axis speed *)

Section SpeedFacts.

Variable V : Variant.
Variable random : nat -> Q.

Lemma animate_abs (t : Q) (st : State) :
  Qabs (x (velocity (animate V random t st))) == Qabs (x (velocity st))
  /\ Qabs (y (velocity (animate V random t st))) == Qabs (y (velocity st)).
Proof.
  rewrite animate_velocity. unfold frame_locals.
  split; [apply updater_abs_x | apply updater_abs_y].
Qed.

Lemma step_abs (e : Event) (st : State) :
  Qabs (x (velocity (step V random e st))) == Qabs (x (velocity st))
  /\ Qabs (y (velocity (step V random e st))) == Qabs (y (velocity st)).
Proof.
  destruct e as [t | d | b |]; cbn [step].
  - unfold runFrame.
    change (velocity st) with (velocity (set_frameRequests [] st)).
    generalize (set_frameRequests [] st). generalize (frameRequests st).
    induction l as [| a l IH]; intro s; [split; reflexivity|].
    cbn [fold_left]. destruct (IH (animate V random t s)) as [IHx IHy].
    destruct (animate_abs t s) as [Hx Hy].
    split; [rewrite IHx; exact Hx | rewrite IHy; exact Hy].
  - rewrite rerunAnimationEffect_velocity. split; reflexivity.
  - destruct (motionGate V); [|split; reflexivity].
    rewrite rerunAnimationEffect_velocity. split; reflexivity.
  - destruct (controls V); split; reflexivity.
Qed.

Lemma run_abs (events : list Event) (st : State) :
  Qabs (x (velocity (run V random events st))) == Qabs (x (velocity st))
  /\ Qabs (y (velocity (run V random events st))) == Qabs (y (velocity st)).
Proof.
  revert st. induction events as [| e events IH]; intro st;
    [split; reflexivity|].
  unfold run in *. cbn [fold_left].
  destruct (IH (step V random e st)) as [IHx IHy].
  destruct (step_abs e st) as [Hx Hy].
  split; [rewrite IHx; exact Hx | rewrite IHy; exact Hy].
Qed.

End SpeedFacts.

(** X2: the start angle lies between 30 and 60 degrees, both included
    (the upper end is only reached through rounding), and after any
    sequence of events the horizontal speed is still the cosine of that
    angle and the vertical speed its sine: the per-axis speed is fixed at
    mount. *)
Theorem speed_fixed_at_mount
        (V : Variant) (random : nat -> Q) (cosd sind : Q -> Q)
        (d : Dimensions) (reduceMotion : bool) (events : list Event) :
  random_ok random ->
  start_angle_closed_ok cosd sind ->
  30 <= start_angle random /\ start_angle random <= 60
  /\ Qabs (x (velocity (run V random events
                            (mount V random cosd sind d reduceMotion))))
     == cosd (start_angle random)
  /\ Qabs (y (velocity (run V random events
                            (mount V random cosd sind d reduceMotion))))
     == sind (start_angle random).
Proof.
  intros Hr Ha.
  destruct (Hr 2%nat) as [H0 H1].
  assert (Hlo : 30 <= start_angle random) by (unfold start_angle; lra).
  assert (Hhi : start_angle random <= 60) by (unfold start_angle; lra).
  destruct (Ha _ Hlo Hhi) as [Hc Hs].
  destruct (run_abs V random events
                    (mount V random cosd sind d reduceMotion)) as [Hx Hy].
  destruct (mount_fields V random cosd sind d reduceMotion)
    as (_ & Hv & _).
  rewrite Hv in Hx, Hy. cbn [x y] in Hx, Hy.
  split; [exact Hlo|]. split; [exact Hhi|].
  split.
  - rewrite Hx, Qabs_Qmult.
    destruct (Qlt_bool (1 # 2) (random 3%nat));
      rewrite (Qabs_pos _ (Qlt_le_weak _ _ Hc));
      [change (Qabs 1) with 1 | change (Qabs (- (1))) with 1]; ring.
  - rewrite Hy, Qabs_Qmult.
    destruct (Qlt_bool (1 # 2) (random 4%nat));
      rewrite (Qabs_pos _ (Qlt_le_weak _ _ Hs));
      [change (Qabs 1) with 1 | change (Qabs (- (1))) with 1]; ring.
Qed.

Lemma speed_fixed_at_mount_witness :
  Qabs (x (velocity (run BouncingWord_toggle (constant_random 0)
                         [Frame 16; Frame 32; SetMotion false]
                         corner_start)))
  == 866 # 1000.
Proof.
  assert (Hr : random_ok (constant_random 0))
    by (intro n; split; [vm_compute; discriminate | reflexivity]).
  assert (Ha : start_angle_closed_ok cos30 sin30)
    by (intros a _ _; split; reflexivity).
  destruct (speed_fixed_at_mount
              BouncingWord_toggle (constant_random 0) cos30 sin30
              (mkDimensions 500 300 100 50) false
              [Frame 16; Frame 32; SetMotion false] Hr Ha)
    as (_ & _ & H & _).
  exact H.
Defined.

(** ** When a frame is pending *)

Section LiveInvariant.

Variable V : Variant.
Variable random : nat -> Q.
Variable cosd sind : Q -> Q.

Lemma animationEffect_live (st : State) :
  frameRequests st = [] -> loop_live V (animationEffect V st).
Proof.
  intros Hq Hen. apply loop_enabled_iff in Hen as (Hgate & Hw & Hh).
  revert Hgate Hw Hh. unfold animationEffect.
  destruct (motionGate V) eqn:Eg; destruct (isMotionEnabled st) eqn:Em;
    cbn [andb negb].
  2: { cbn. rewrite Em. intros [H | H]; discriminate H. }
  all: destruct (Qlt_bool 0 (width (dimensions st))) eqn:Ew;
    destruct (Qlt_bool 0 (height (dimensions st))) eqn:Eh;
    cbn [andb]; cbn; intros _ Hw Hh;
    try (apply Qlt_bool_iff in Hw; congruence);
    try (apply Qlt_bool_iff in Hh; congruence);
    rewrite Hq; eexists; split; reflexivity.
Qed.

Lemma rerunAnimationEffect_live (st : State) :
  requests_tracked st -> loop_live V (rerunAnimationEffect V st).
Proof.
  intro Ht. unfold rerunAnimationEffect.
  apply animationEffect_live. apply cleanup_clears. exact Ht.
Qed.

Lemma animate_loop_enabled (t : Q) (st : State) :
  loop_enabled V (animate V random t st) = loop_enabled V st.
Proof.
  unfold loop_enabled.
  rewrite animate_dimensions, animate_isMotionEnabled. reflexivity.
Qed.

Lemma runFrame_live (t : Q) (st : State) :
  requests_tracked st -> loop_live V st ->
  loop_live V (runFrame V random t st).
Proof.
  intros Ht Hl.
  destruct Ht as [Hq | (_ & h & Hq & _)].
  - rewrite runFrame_idle by exact Hq. exact Hl.
  - rewrite (runFrame_single V random t st h Hq). intros _.
    destruct (animate_host V random t (set_frameRequests [] st))
      as (Ha & _ & Hf).
    rewrite Ha, Hf. cbn. eexists. split; reflexivity.
Qed.

Lemma step_live (e : Event) (st : State) :
  requests_tracked st -> loop_live V st ->
  loop_live V (step V random e st).
Proof.
  intros Ht Hl. destruct e as [t | d | b |]; cbn [step].
  - apply runFrame_live; assumption.
  - apply rerunAnimationEffect_live. exact Ht.
  - destruct (motionGate V) eqn:Eg; [|exact Hl].
    apply rerunAnimationEffect_live. exact Ht.
  - destruct (controls V); exact Hl.
Qed.

Lemma Reachable_live (st : State) :
  Reachable V random cosd sind st -> loop_live V st.
Proof.
  intro HR. induction HR as [d rm | e st HR IH].
  - unfold mount. apply animationEffect_live.
    destruct (motionGate V); reflexivity.
  - apply step_live; [|exact IH].
    apply (Reachable_ok V random cosd sind st HR).
Qed.

(** A frame of a live loop is one call of [animate]. *)
Lemma live_frame (t : Q) (st : State) :
  Reachable V random cosd sind st ->
  loop_enabled V st = true ->
  runFrame V random t st = animate V random t (set_frameRequests [] st).
Proof.
  intros HR Hen.
  destruct (Reachable_live st HR Hen) as (h & Hq & _).
  apply (runFrame_single V random t st h Hq).
Qed.

End LiveInvariant.

(** X3: in every reachable state exactly one frame callback is requested,
    and [animationRef] holds its handle, when the motion gate (where there
    is one) is open and the container has a positive width and height;
    otherwise none is requested. *)
Theorem frame_pending_iff_enabled
        (V : Variant) (random : nat -> Q) (cosd sind : Q -> Q)
        (st : State) :
  Reachable V random cosd sind st ->
  if loop_enabled V st
  then exists h, frameRequests st = [h] /\ animationRef st = Some h
  else frameRequests st = [].
Proof.
  intro HR. destruct (loop_enabled V st) eqn:Een.
  - apply (Reachable_live V random cosd sind st HR Een).
  - destruct (Reachable_ok V random cosd sind st HR) as [_ [Hg1 Hg2]].
    unfold loop_enabled in Een.
    destruct (motionGate V) eqn:Eg; destruct (isMotionEnabled st) eqn:Em;
      cbn [negb orb andb] in Een;
      try (apply Hg1; reflexivity);
      apply Hg2; intros [Hw Hh];
      apply Qlt_bool_iff in Hw; apply Qlt_bool_iff in Hh;
      rewrite Hw, Hh in Een; discriminate Een.
Qed.

Lemma frame_pending_iff_enabled_witness :
  exists h, frameRequests corner_start = [h]
            /\ animationRef corner_start = Some h.
Proof.
  apply (frame_pending_iff_enabled
           BouncingWord_toggle (constant_random 0) cos30 sin30
           corner_start).
  apply Reachable_mount.
Defined.

(** X4: unmounting a component in any reachable state leaves no frame
    callback requested, so no update runs after it. *)
Theorem unmount_releases_frame
        (V : Variant) (random : nat -> Q) (cosd sind : Q -> Q)
        (st : State) (times : list Q) :
  Reachable V random cosd sind st ->
  frameRequests (unmount st) = []
  /\ runFrames V random times (unmount st) = unmount st.
Proof.
  intro HR.
  destruct (Reachable_ok V random cosd sind st HR) as [Ht _].
  pose proof (cleanup_clears st Ht) as Hq.
  split; [exact Hq | apply runFrames_idle; exact Hq].
Qed.

Lemma unmount_releases_frame_witness :
  frameRequests corner_start = [1%positive]
  /\ frameRequests (unmount corner_start) = [].
Proof.
  split; [reflexivity|].
  apply (unmount_releases_frame
           BouncingWord_toggle (constant_random 0) cos30 sin30
           corner_start [16]).
  apply Reachable_mount.
Defined.

(** ** Resizing, pausing and resuming *)

Lemma frame_locals_ext (V : Variant) (t : Q) (st st' : State) :
  dimensions st' = dimensions st ->
  velocity st' = velocity st ->
  position st' = position st ->
  lastTimeRef st' = lastTimeRef st ->
  frame_locals V t st' = frame_locals V t st.
Proof.
  intros Hd Hv Hp Hl. unfold frame_locals, deltaTime_at.
  rewrite Hd, Hv, Hp, Hl. reflexivity.
Qed.

(** X12: after a measurement that lets the loop run and in which the label
    fits the container, the next frame stores a position inside the newly
    measured bounds, wherever the word was before. *)
Theorem next_frame_repairs_resize
        (V : Variant) (random : nat -> Q) (cosd sind : Q -> Q)
        (st : State) (d : Dimensions) (t : Q) :
  Reachable V random cosd sind st ->
  loop_enabled V (setDimensions d st) = true ->
  wordWidth d <= width d ->
  wordHeight d <= height d ->
  in_bounds d (position (step V random (Frame t)
                              (step V random (Measure d) st))).
Proof.
  intros HR Hen Hw Hh.
  set (st1 := step V random (Measure d) st).
  assert (HR1 : Reachable V random cosd sind st1)
    by (apply Reachable_step; exact HR).
  destruct (rerunAnimationEffect_sim V (setDimensions d st))
    as (_ & Hd & _ & Hm & _).
  assert (Hd1 : dimensions st1 = d) by exact Hd.
  assert (Hen1 : loop_enabled V st1 = true).
  { unfold loop_enabled. rewrite Hd1.
    change (isMotionEnabled st1)
      with (isMotionEnabled (rerunAnimationEffect V (setDimensions d st))).
    rewrite Hm. exact Hen. }
  cbn [step].
  rewrite (live_frame V random cosd sind t st1 HR1 Hen1).
  rewrite animate_position. unfold frame_locals.
  change (dimensions (set_frameRequests [] st1)) with (dimensions st1).
  rewrite Hd1. apply updater_in_bounds; assumption.
Qed.

Lemma next_frame_repairs_resize_witness :
  in_bounds (mkDimensions 300 200 100 50)
            (position (step BouncingWord_toggle (constant_random (1 # 2))
                            (Frame 16)
                            (step BouncingWord_toggle
                                  (constant_random (1 # 2))
                                  (Measure (mkDimensions 300 200 100 50))
                                  (mount BouncingWord_toggle
                                         (constant_random (1 # 2))
                                         cos30 sin30
                                         (mkDimensions 900 600 100 50)
                                         false)))).
Proof.
  apply (next_frame_repairs_resize
           BouncingWord_toggle (constant_random (1 # 2)) cos30 sin30).
  - apply Reachable_mount.
  - reflexivity.
  - vm_compute; discriminate.
  - vm_compute; discriminate.
Defined.

Section PauseFacts.

Variable V : Variant.
Variable random : nat -> Q.
Variable cosd sind : Q -> Q.

Hypothesis gated : motionGate V = true.

(** An event that does not switch motion on keeps a paused component
    paused, with its word where it was. *)
Lemma paused_step (e : Event) (st : State) :
  Reachable V random cosd sind st ->
  isMotionEnabled st = false ->
  enables_motion e = false ->
  isMotionEnabled (step V random e st) = false
  /\ position (step V random e st) = position st.
Proof.
  intros HR Hoff He.
  destruct (Reachable_ok V random cosd sind st HR) as [_ [Hg _]].
  pose proof (Hg gated Hoff) as Hq.
  destruct e as [t | d | b |]; cbn [step].
  - rewrite runFrame_idle by exact Hq. split; [exact Hoff | reflexivity].
  - destruct (rerunAnimationEffect_sim V (setDimensions d st))
      as (Hp & _ & _ & Hm & _).
    rewrite Hp, Hm. split; [exact Hoff | reflexivity].
  - rewrite gated. destruct b; [discriminate He|].
    destruct (rerunAnimationEffect_sim V (setIsMotionEnabled false st))
      as (Hp & _ & _ & Hm & _).
    rewrite Hp, Hm. split; reflexivity.
  - destruct (controls V); split; try exact Hoff; reflexivity.
Qed.

Lemma paused_run (events : list Event) :
  forall st : State,
    Reachable V random cosd sind st ->
    isMotionEnabled st = false ->
    forallb (fun e => negb (enables_motion e)) events = true ->
    Reachable V random cosd sind (run V random events st)
    /\ isMotionEnabled (run V random events st) = false
    /\ position (run V random events st) = position st.
Proof.
  induction events as [| e events IH]; intros st HR Hoff Hev.
  - repeat split; assumption.
  - cbn [forallb] in Hev. apply andb_true_iff in Hev as [He Hev].
    apply negb_true_iff in He.
    destruct (paused_step e st HR Hoff He) as [Hoff1 Hp1].
    assert (HR1 : Reachable V random cosd sind (step V random e st))
      by (apply Reachable_step; exact HR).
    destruct (IH _ HR1 Hoff1 Hev) as (HRn & Hoffn & Hpn).
    unfold run in *. cbn [fold_left].
    repeat split; try assumption. rewrite Hpn. exact Hp1.
Qed.

End PauseFacts.

(** X13: in a component with the motion gate, once motion is disabled no
    sequence of frames, measurements, change-word clicks and repeated
    switch-offs moves the word or requests a frame; only switching motion
    on again does. *)
Theorem paused_word_stays_put
        (V : Variant) (random : nat -> Q) (cosd sind : Q -> Q)
        (st : State) (events : list Event) :
  motionGate V = true ->
  Reachable V random cosd sind st ->
  isMotionEnabled st = false ->
  forallb (fun e => negb (enables_motion e)) events = true ->
  position (run V random events st) = position st
  /\ frameRequests (run V random events st) = [].
Proof.
  intros Hg HR Hoff Hev.
  destruct (paused_run V random cosd sind Hg events st HR Hoff Hev)
    as (HRn & Hoffn & Hpn).
  split; [exact Hpn|].
  destruct (Reachable_ok V random cosd sind _ HRn) as [_ [Hgate _]].
  apply Hgate; assumption.
Qed.

Lemma paused_word_stays_put_witness :
  position (run BouncingWord_toggle (constant_random (1 # 2))
                [Frame 16; ClickChangeWord;
                 Measure (mkDimensions 400 300 120 50); Frame 32]
                switched_off)
  = position switched_off.
Proof.
  assert (HR : Reachable BouncingWord_toggle (constant_random (1 # 2))
                         cos30 sin30 switched_off)
    by (apply Reachable_step, Reachable_mount).
  destruct (paused_word_stays_put
              BouncingWord_toggle (constant_random (1 # 2)) cos30 sin30
              switched_off
              [Frame 16; ClickChangeWord;
               Measure (mkDimensions 400 300 120 50); Frame 32]
              eq_refl HR eq_refl eq_refl) as [H _].
  exact H.
Defined.

(** X8: switching motion off and on again does not reset the time
    baseline.  The next frame measures its interval from the last frame
    before the pause and stores the same position, velocity and label as
    it would have without the pause. *)
Theorem resume_keeps_time_baseline
        (V : Variant) (random : nat -> Q) (cosd sind : Q -> Q)
        (st : State) (t : Q) :
  motionGate V = true ->
  Reachable V random cosd sind st ->
  loop_enabled V st = true ->
  deltaTime_at t (run V random [SetMotion false; SetMotion true] st)
  = deltaTime_at t st
  /\ position (run V random [SetMotion false; SetMotion true; Frame t] st)
     = position (run V random [Frame t] st)
  /\ velocity (run V random [SetMotion false; SetMotion true; Frame t] st)
     = velocity (run V random [Frame t] st)
  /\ currentWord
       (run V random [SetMotion false; SetMotion true; Frame t] st)
     = currentWord (run V random [Frame t] st).
Proof.
  intros Hg HR Hen.
  unfold run. cbn [fold_left].
  set (st1 := step V random (SetMotion false) st).
  set (st2 := step V random (SetMotion true) st1).
  assert (HR2 : Reachable V random cosd sind st2)
    by (do 2 apply Reachable_step; exact HR).
  destruct (rerunAnimationEffect_sim V (setIsMotionEnabled false st))
    as (Hp1 & Hd1 & Hl1 & _ & Hw1 & _ & Hn1).
  pose proof (rerunAnimationEffect_velocity V (setIsMotionEnabled false st))
    as Hv1.
  assert (E1 : st1 = rerunAnimationEffect V (setIsMotionEnabled false st))
    by (unfold st1; cbn [step]; rewrite Hg; reflexivity).
  assert (E2 : st2 = rerunAnimationEffect V (setIsMotionEnabled true st1))
    by (unfold st2; cbn [step]; rewrite Hg; reflexivity).
  destruct (rerunAnimationEffect_sim V (setIsMotionEnabled true st1))
    as (Hp2 & Hd2 & Hl2 & Hm2 & Hw2 & _ & Hn2).
  pose proof (rerunAnimationEffect_velocity V (setIsMotionEnabled true st1))
    as Hv2.
  rewrite <- E2 in Hp2, Hd2, Hl2, Hm2, Hw2, Hn2, Hv2.
  cbn [position dimensions lastTimeRef isMotionEnabled currentWord
       randomCalls velocity setIsMotionEnabled]
    in Hp2, Hd2, Hl2, Hm2, Hw2, Hn2, Hv2.
  rewrite E1 in Hp2, Hd2, Hl2, Hw2, Hn2, Hv2.
  rewrite Hp1 in Hp2. rewrite Hd1 in Hd2. rewrite Hl1 in Hl2.
  rewrite Hw1 in Hw2. rewrite Hn1 in Hn2. rewrite Hv1 in Hv2.
  cbn [position dimensions lastTimeRef isMotionEnabled currentWord
       randomCalls velocity setIsMotionEnabled]
    in Hp2, Hd2, Hl2, Hw2, Hn2, Hv2.
  assert (Hen2 : loop_enabled V st2 = true).
  { apply loop_enabled_iff. rewrite Hd2.
    apply loop_enabled_iff in Hen as (_ & Hw & Hh). tauto. }
  assert (Hloc : frame_locals V t (set_frameRequests [] st2)
                 = frame_locals V t (set_frameRequests [] st)).
  { apply frame_locals_ext; assumption. }
  split; [unfold deltaTime_at; rewrite Hl2; reflexivity|].
  cbn [step].
  rewrite (live_frame V random cosd sind t st2 HR2 Hen2).
  rewrite (live_frame V random cosd sind t st HR Hen).
  rewrite !animate_position, !animate_velocity, !animate_currentWord.
  rewrite Hloc.
  change (currentWord (set_frameRequests [] st2)) with (currentWord st2).
  change (randomCalls (set_frameRequests [] st2)) with (randomCalls st2).
  rewrite Hw2, Hn2. repeat split; reflexivity.
Qed.

Lemma resume_keeps_time_baseline_witness :
  position (run BouncingWord_toggle (constant_random (1 # 2))
                [SetMotion false; SetMotion true; Frame 5000]
                (step BouncingWord_toggle (constant_random (1 # 2))
                      (Frame 16)
                      (mount BouncingWord_toggle (constant_random (1 # 2))
                             cos30 sin30 (mkDimensions 500 300 100 50)
                             false)))
  = position (run BouncingWord_toggle (constant_random (1 # 2))
                  [Frame 5000]
                  (step BouncingWord_toggle (constant_random (1 # 2))
                        (Frame 16)
                        (mount BouncingWord_toggle (constant_random (1 # 2))
                               cos30 sin30 (mkDimensions 500 300 100 50)
                               false))).
Proof.
  assert (HR : Reachable BouncingWord_toggle (constant_random (1 # 2))
                 cos30 sin30
                 (step BouncingWord_toggle (constant_random (1 # 2))
                       (Frame 16)
                       (mount BouncingWord_toggle (constant_random (1 # 2))
                              cos30 sin30 (mkDimensions 500 300 100 50)
                              false)))
    by (apply Reachable_step, Reachable_mount).
  destruct (resume_keeps_time_baseline
              BouncingWord_toggle (constant_random (1 # 2)) cos30 sin30
              _ 5000 eq_refl HR eq_refl) as (_ & H & _).
  exact H.
Defined.

(** ** Leaving a wall *)

Section LeaveWall.

Variable V : Variant.
Variable v : Velocity.
Variable dt : Q.
Variable p : Position.

Hypothesis speed_pos : 0 < SPEED V.
Hypothesis dt_pos : 0 < dt.

Lemma leaves_left :
  x p == 0 -> 0 < x v -> clamped_left V v dt p = false.
Proof.
  intros Hp Hv. unfold clamped_left, candidate. cbn [x].
  apply Qle_bool_false.
  pose proof (Qmult_lt_0_compat _ _ Hv speed_pos) as H1.
  pose proof (Qmult_lt_0_compat _ _ H1 dt_pos) as H2. lra.
Qed.

Lemma leaves_top :
  y p == 0 -> 0 < y v -> clamped_top V v dt p = false.
Proof.
  intros Hp Hv. unfold clamped_top, candidate. cbn [y].
  apply Qle_bool_false.
  pose proof (Qmult_lt_0_compat _ _ Hv speed_pos) as H1.
  pose proof (Qmult_lt_0_compat _ _ H1 dt_pos) as H2. lra.
Qed.

End LeaveWall.

(** Events other than frame ticks leave the position, the velocity and
    the time baseline alone. *)
Lemma quiet_step (V : Variant) (random : nat -> Q) (e : Event) (st : State) :
  is_frame e = false ->
  position (step V random e st) = position st
  /\ velocity (step V random e st) = velocity st
  /\ lastTimeRef (step V random e st) = lastTimeRef st.
Proof.
  intro He. destruct e as [t | d | b |]; cbn [step];
    [discriminate He | | |].
  - destruct (rerunAnimationEffect_sim V (setDimensions d st))
      as (Hp & _ & Hl & _).
    rewrite Hp, Hl, rerunAnimationEffect_velocity.
    repeat split; reflexivity.
  - destruct (motionGate V); [|repeat split; reflexivity].
    destruct (rerunAnimationEffect_sim V (setIsMotionEnabled b st))
      as (Hp & _ & Hl & _).
    rewrite Hp, Hl, rerunAnimationEffect_velocity.
    repeat split; reflexivity.
  - destruct (controls V); repeat split; reflexivity.
Qed.

Lemma quiet_run (V : Variant) (random : nat -> Q) (events : list Event) :
  forall st : State,
    forallb (fun e => negb (is_frame e)) events = true ->
    position (run V random events st) = position st
    /\ velocity (run V random events st) = velocity st
    /\ lastTimeRef (run V random events st) = lastTimeRef st.
Proof.
  induction events as [| e events IH]; intros st Hev;
    [repeat split; reflexivity|].
  cbn [forallb] in Hev. apply andb_true_iff in Hev as [He Hev].
  apply negb_true_iff in He.
  destruct (quiet_step V random e st He) as (Hp & Hv & Hl).
  destruct (IH (step V random e st) Hev) as (IHp & IHv & IHl).
  unfold run in *. cbn [fold_left].
  rewrite IHp, IHv, IHl. repeat split; assumption.
Qed.

(** X7: the word does not bounce off the left wall, or off the top wall,
    in two consecutive frames.  After a frame at a non-zero time t that
    clamped it to that wall, and whatever is re-measured, clicked or
    switched in between, a frame at least one millisecond later does not
    take the branch of that wall again.  (No such law holds for the right
    and bottom walls: their bounds move with every re-measurement.) *)
Theorem no_second_bounce_on_left_or_top_wall
        (V : Variant) (random : nat -> Q) (cosd sind : Q -> Q)
        (st : State) (t t' : Q) (events : list Event) :
  random_ok random ->
  start_angle_ok cosd sind ->
  Reachable V random cosd sind st ->
  0 < SPEED V ->
  ~ t == 0 ->
  t + 1 <= t' ->
  forallb (fun e => negb (is_frame e)) events = true ->
  (clamped_left V (velocity st) (deltaTime_at t st) (position st) = true ->
   clamped_left V
     (velocity (run V random events (animate V random t st)))
     (deltaTime_at t' (run V random events (animate V random t st)))
     (position (run V random events (animate V random t st))) = false)
  /\ (clamped_top V (velocity st) (deltaTime_at t st) (position st) = true ->
      clamped_top V
        (velocity (run V random events (animate V random t st)))
        (deltaTime_at t' (run V random events (animate V random t st)))
        (position (run V random events (animate V random t st))) = false).
Proof.
  intros Hr Ha HR Hs Ht Hlt Hev.
  destruct (Reachable_moving V random cosd sind st Hr Ha HR) as [Hx Hy].
  pose proof (Qabs_pos_of_nonzero _ Hx) as Hax.
  pose proof (Qabs_pos_of_nonzero _ Hy) as Hay.
  destruct (quiet_run V random events (animate V random t st) Hev)
    as (Hp & Hv & Hl).
  assert (Hdt : 0 < deltaTime_at t'
                      (run V random events (animate V random t st))).
  { rewrite deltaTime_at_later;
      rewrite Hl, animate_lastTimeRef; [|exact Ht].
    apply Qlt_shift_div_l; lra. }
  rewrite Hp, Hv, animate_position, animate_velocity.
  unfold frame_locals.
  split; intro H.
  - destruct (updater_left V (dimensions st) _ _ _ H) as [Hv1 Hp1].
    apply leaves_left; try assumption;
      [rewrite Hp1; reflexivity | rewrite Hv1; exact Hax].
  - destruct (updater_top V (dimensions st) _ _ _ H) as [Hv1 Hp1].
    apply leaves_top; try assumption;
      [rewrite Hp1; reflexivity | rewrite Hv1; exact Hay].
Qed.

Lemma no_second_bounce_on_left_or_top_wall_witness :
  clamped_left BouncingWord_toggle
    (velocity (run BouncingWord_toggle (constant_random 0)
                   [Measure (mkDimensions 500 300 160 50)]
                   (animate BouncingWord_toggle (constant_random 0) 16
                            corner_start)))
    (deltaTime_at 32
       (run BouncingWord_toggle (constant_random 0)
            [Measure (mkDimensions 500 300 160 50)]
            (animate BouncingWord_toggle (constant_random 0) 16
                     corner_start)))
    (position (run BouncingWord_toggle (constant_random 0)
                   [Measure (mkDimensions 500 300 160 50)]
                   (animate BouncingWord_toggle (constant_random 0) 16
                            corner_start))) = false.
Proof.
  assert (Hr : random_ok (constant_random 0))
    by (intro n; split; [vm_compute; discriminate | reflexivity]).
  assert (Ha : start_angle_ok cos30 sin30)
    by (intros a _ _; split; reflexivity).
  assert (HR : Reachable BouncingWord_toggle (constant_random 0)
                         cos30 sin30 corner_start)
    by apply Reachable_mount.
  assert (Hs : 0 < SPEED BouncingWord_toggle) by reflexivity.
  assert (Ht : ~ 16 == 0) by (vm_compute; discriminate).
  assert (Hlt : 16 + 1 <= 32) by (vm_compute; discriminate).
  destruct (no_second_bounce_on_left_or_top_wall
              BouncingWord_toggle (constant_random 0) cos30 sin30
              corner_start 16 32 [Measure (mkDimensions 500 300 160 50)]
              Hr Ha HR Hs Ht Hlt eq_refl) as (Hleft & _).
  apply Hleft. reflexivity.
Defined.

(** ** The label is always a word of the pool *)

Lemma pools_ok_variants (V : Variant) :
  In V [BouncingWord_toggle; BouncingWord_color; BouncingAnimation] ->
  pools_ok V.
Proof.
  intro HV. simpl in HV. destruct HV as [<- | [<- | [<- | []]]];
    (split; [simpl; tauto|]);
    (split;
     [ exists "self"%string, "values"%string; simpl;
       repeat split; try tauto; discriminate |]);
    intros colors Hc; simpl in Hc; try discriminate Hc.
  injection Hc as <-. split; [discriminate|].
  exists "hsl(0 0% 100%)"%string, "hsl(45 100% 75%)"%string.
  simpl. repeat split; try tauto; discriminate.
Qed.

Section LabelInvariant.

Variable V : Variant.
Variable random : nat -> Q.
Variable cosd sind : Q -> Q.

Hypothesis pools : pools_ok V.
Hypothesis random_range : random_ok random.

Lemma pick_in_pool (pool : list string) (current : option string) (n : nat) :
  pool_ok pool ->
  exists w, pick pool current (random n) = Some w /\ In w pool.
Proof.
  intros (a & b & Ha & Hb & Hab).
  destruct (random_range n) as [H0 H1].
  destruct (pick_total pool current (random n) a b Ha Hb Hab H0 H1)
    as (_ & _ & w & Hw & Hin & _).
  exists w. split; assumption.
Qed.

Lemma onCollision_label_ok (st : State) :
  label_ok V (onCollision V random st).
Proof.
  destruct pools as (_ & Hwords & Hcolors).
  unfold label_ok, onCollision, changeWordAndColor, changeWord.
  destruct (COLOR_POOL V) as [colors |] eqn:Ec.
  - destruct (Hcolors colors eq_refl) as [_ Hpool].
    cbn. split.
    + apply pick_in_pool. exact Hwords.
    + intros colors' Hc'. injection Hc' as <-.
      apply pick_in_pool. exact Hpool.
  - cbn. split.
    + apply pick_in_pool. exact Hwords.
    + intros colors' Hc'. discriminate Hc'.
Qed.

Lemma animate_label_ok (t : Q) (st : State) :
  label_ok V st -> label_ok V (animate V random t st).
Proof.
  intro Hok. unfold animate.
  destruct (collisionDetected (frame_locals V t st)).
  - exact (onCollision_label_ok
             (setVelocity (newVelocity (frame_locals V t st))
                          (set_lastTimeRef t st))).
  - exact Hok.
Qed.

Lemma step_label_ok (e : Event) (st : State) :
  label_ok V st -> label_ok V (step V random e st).
Proof.
  intro Hok. destruct e as [t | d | b |]; cbn [step].
  - unfold runFrame.
    assert (Hok0 : label_ok V (set_frameRequests [] st)) by exact Hok.
    revert Hok0. generalize (set_frameRequests [] st).
    generalize (frameRequests st).
    induction l as [| a l IH]; intros s Hs; [exact Hs|].
    cbn [fold_left]. apply IH. apply animate_label_ok. exact Hs.
  - destruct (rerunAnimationEffect_sim V (setDimensions d st))
      as (_ & _ & _ & _ & Hw & Hc & _).
    unfold label_ok. rewrite Hw, Hc. exact Hok.
  - destruct (motionGate V); [|exact Hok].
    destruct (rerunAnimationEffect_sim V (setIsMotionEnabled b st))
      as (_ & _ & _ & _ & Hw & Hc & _).
    unfold label_ok. rewrite Hw, Hc. exact Hok.
  - destruct (controls V); [|exact Hok].
    destruct pools as (_ & Hwords & _).
    destruct Hok as [_ Hcol]. split; [|exact Hcol].
    unfold changeWord. cbn. apply pick_in_pool. exact Hwords.
Qed.

Lemma mount_label_ok (d : Dimensions) (reduceMotion : bool) :
  label_ok V (mount V random cosd sind d reduceMotion).
Proof.
  destruct pools as (Hself & _ & Hcolors).
  destruct (mount_fields V random cosd sind d reduceMotion)
    as (_ & _ & _ & _ & Hw & Hc).
  unfold label_ok. rewrite Hw, Hc. split.
  - exists "self"%string. split; [reflexivity | exact Hself].
  - intros colors Ec. rewrite Ec.
    destruct (Hcolors colors Ec) as [Hne _].
    destruct colors as [| c colors']; [congruence|].
    exists c. split; [reflexivity | left; reflexivity].
Qed.

Lemma Reachable_label_ok (st : State) :
  Reachable V random cosd sind st -> label_ok V st.
Proof.
  intro HR. induction HR as [d rm | e st HR IH].
  - apply mount_label_ok.
  - apply step_label_ok. exact IH.
Qed.

End LabelInvariant.

(** X9: in each of the three components and in every reachable state, the
    label is a word of the word pool, never undefined, and in the colour
    variant the colour is a colour of the colour pool. *)
Theorem label_always_from_pool
        (V : Variant) (random : nat -> Q) (cosd sind : Q -> Q)
        (st : State) :
  In V [BouncingWord_toggle; BouncingWord_color; BouncingAnimation] ->
  random_ok random ->
  Reachable V random cosd sind st ->
  (exists w, currentWord st = Some w /\ In w (WORD_POOL V))
  /\ (forall colors, COLOR_POOL V = Some colors ->
      exists c, currentColor st = Some c /\ In c colors).
Proof.
  intros HV Hr HR.
  apply (Reachable_label_ok V random cosd sind
                            (pools_ok_variants V HV) Hr st HR).
Qed.

Lemma label_always_from_pool_witness :
  exists w,
    currentWord (run BouncingWord_toggle (constant_random 0)
                     [Frame 16; Frame 32] corner_start) = Some w
    /\ In w (WORD_POOL BouncingWord_toggle).
Proof.
  assert (HV : In BouncingWord_toggle
                  [BouncingWord_toggle; BouncingWord_color;
                   BouncingAnimation]) by (simpl; tauto).
  assert (Hr : random_ok (constant_random 0))
    by (intro n; split; [vm_compute; discriminate | reflexivity]).
  assert (HR : Reachable BouncingWord_toggle (constant_random 0)
                 cos30 sin30
                 (run BouncingWord_toggle (constant_random 0)
                      [Frame 16; Frame 32] corner_start))
    by (apply Reachable_step, Reachable_step, Reachable_mount).
  destruct (label_always_from_pool
              BouncingWord_toggle (constant_random 0) cos30 sin30
              _ HV Hr HR) as [H _].
  exact H.
Defined.

(** ** How the random number selects *)

Lemma array_get_of_nat {A : Type} (arr : list A) (k : nat) :
  array_get arr (Z.of_nat k) = nth_error arr k.
Proof.
  unfold array_get.
  destruct (Z.of_nat k <? 0)%Z eqn:E; [apply Z.ltb_lt in E; lia|].
  rewrite Nat2Z.id. reflexivity.
Qed.

(** X11: every item of the pool other than the current one can be picked:
    some random number in [0, 1) selects it. *)
Theorem every_other_item_can_be_picked
        (pool : list string) (current : option string) (w : string) :
  In w pool ->
  strict_neq w current = true ->
  exists r, 0 <= r /\ r < 1 /\ pick pool current r = Some w.
Proof.
  intros Hin Hneq.
  assert (Hav : In w (available pool current))
    by (apply available_In; split; assumption).
  destruct (In_nth_error _ _ Hav) as [k Hk].
  assert (Hlt : (k < List.length (available pool current))%nat)
    by (apply nth_error_Some; congruence).
  set (n := Z.of_nat (List.length (available pool current))) in *.
  assert (Hn : 0 < inject_Z n).
  { change 0 with (inject_Z 0). rewrite <- Zlt_Qlt. subst n. lia. }
  assert (Hkn : inject_Z (Z.of_nat k) < inject_Z n).
  { rewrite <- Zlt_Qlt. subst n. lia. }
  assert (Hk0 : 0 <= inject_Z (Z.of_nat k)).
  { change 0 with (inject_Z 0). rewrite <- Zle_Qle. lia. }
  exists (inject_Z (Z.of_nat k) / inject_Z n).
  assert (Hmul : inject_Z (Z.of_nat k) / inject_Z n * inject_Z n
                 == inject_Z (Z.of_nat k)).
  { field. lra. }
  split; [apply Qle_shift_div_l; lra|].
  split; [apply Qlt_shift_div_r; lra|].
  unfold pick, random_index. fold n.
  rewrite (Qfloor_comp _ _ Hmul), Qfloor_Z, array_get_of_nat. exact Hk.
Qed.

Lemma every_other_item_can_be_picked_witness :
  exists r, 0 <= r /\ r < 1
            /\ pick WORD_POOL_19 (Some "self"%string) r
               = Some "essence"%string.
Proof.
  apply (every_other_item_can_be_picked
           WORD_POOL_19 (Some "self"%string) "essence"%string).
  - simpl. tauto.
  - reflexivity.
Defined.

(** X14: no pool lists an item twice, so the filter excludes exactly the
    current item: a collision chooses among 17 words (18 on the landing
    page) and, in the colour variant, among 7 colours. *)
Theorem exactly_one_item_excluded (V : Variant) (c : string) :
  In V [BouncingWord_toggle; BouncingWord_color; BouncingAnimation] ->
  (In c (WORD_POOL V) ->
   S (List.length (available (WORD_POOL V) (Some c)))
   = List.length (WORD_POOL V))
  /\ (forall colors, COLOR_POOL V = Some colors -> In c colors ->
      S (List.length (available colors (Some c))) = List.length colors).
Proof.
  intro HV. simpl in HV. destruct HV as [<- | [<- | [<- | []]]].
  - split.
    + intro Hc. cbn [WORD_POOL BouncingWord_toggle] in *.
      unfold WORD_POOL_18 in Hc. simpl in Hc.
      repeat (destruct Hc as [<- | Hc]; [vm_compute; reflexivity|]).
      destruct Hc.
    + intros colors Hp. discriminate Hp.
  - split.
    + intro Hc. cbn [WORD_POOL BouncingWord_color] in *.
      unfold WORD_POOL_18 in Hc. simpl in Hc.
      repeat (destruct Hc as [<- | Hc]; [vm_compute; reflexivity|]).
      destruct Hc.
    + intros colors Hp Hc. injection Hp as <-.
      unfold COLOR_POOL_8 in Hc. simpl in Hc.
      repeat (destruct Hc as [<- | Hc]; [vm_compute; reflexivity|]).
      destruct Hc.
  - split.
    + intro Hc. cbn [WORD_POOL BouncingAnimation] in *.
      unfold WORD_POOL_19 in Hc. simpl in Hc.
      repeat (destruct Hc as [<- | Hc]; [vm_compute; reflexivity|]).
      destruct Hc.
    + intros colors Hp. discriminate Hp.
Qed.

Lemma exactly_one_item_excluded_witness :
  List.length (available (WORD_POOL BouncingAnimation)
                         (Some "culture"%string)) = 18%nat.
Proof.
  assert (HV : In BouncingAnimation
                  [BouncingWord_toggle; BouncingWord_color;
                   BouncingAnimation]) by (simpl; tauto).
  destruct (exactly_one_item_excluded BouncingAnimation "culture"%string HV)
    as [H _].
  assert (Hin : In "culture"%string (WORD_POOL BouncingAnimation))
    by (simpl; tauto).
  apply eq_add_S. exact (H Hin).
Defined.

(** ** When the label changes *)

Lemma option_eq_dec_string (a b : option string) : {a = b} + {a <> b}.
Proof. decide equality. apply string_dec. Defined.

(** X15: a frame changes the label exactly when it detects a collision;
    a frame without one leaves the label and the colour as they were. *)
Theorem label_changes_iff_collision
        (V : Variant) (random : nat -> Q) (t : Q) (st : State) (w : string) :
  currentWord st = Some w ->
  (currentWord (animate V random t st) <> currentWord st
   <-> collisionDetected (frame_locals V t st) = true)
  /\ (collisionDetected (frame_locals V t st) = false ->
      currentColor (animate V random t st) = currentColor st).
Proof.
  intro Hw. split.
  - rewrite animate_currentWord.
    destruct (collisionDetected (frame_locals V t st)).
    + split; [reflexivity|]. intros _. rewrite Hw. apply pick_neq.
    + split; [intro H; exfalso; apply H; reflexivity | discriminate].
  - apply animate_currentColor_quiet.
Qed.

Lemma label_changes_iff_collision_witness :
  currentWord (animate BouncingWord_toggle (constant_random 0) 1016
                       open_field_state)
  = currentWord open_field_state.
Proof.
  destruct (label_changes_iff_collision
              BouncingWord_toggle (constant_random 0) 1016
              open_field_state "self"%string eq_refl) as [[H _] _].
  destruct (option_eq_dec_string
              (currentWord (animate BouncingWord_toggle (constant_random 0)
                                    1016 open_field_state))
              (currentWord open_field_state)) as [E | E]; [exact E|].
  specialize (H E). vm_compute in H. discriminate H.
Defined.
